(** * searx: resilient HTTP transport and search orchestrator

    A shallow embedding of [searx/network/client.py] and
    [searx/search/__init__.py], with the properties of the design
    document stated and proved (or refuted) against it.

    Conventions of the embedding:
    - a Python call either returns a value or raises: [Completion];
    - exception objects carry their class; [isinstance] walks the class
      hierarchy declared by the libraries (builtins, python_socks, httpcore);
    - module-level mutable state (SSLCONTEXTS, the connection pool, the
      result container, the log) is threaded explicitly;
    - timeouts are rationals: every finite Python int or float is one, and
      Python compares them exactly. *)

From Stdlib Require Import QArith Qminmax.
From stdpp Require Import gmap strings list.

Local Open Scope string_scope.
Local Open Scope list_scope.

(** ** Python completions *)

Inductive ExnClass :=
  | Exception_                 (* builtins.Exception *)
  | OSError_                   (* builtins.OSError *)
  | TimeoutError_              (* builtins.TimeoutError(OSError) *)
  | gaierror                   (* socket.gaierror(OSError) *)
  | ConnectionResetError_      (* builtins.ConnectionResetError(OSError) *)
  | ValueError_                (* builtins.ValueError *)
  | KeyError_                  (* builtins.KeyError *)
  | TypeError_                 (* builtins.TypeError *)
  | RuntimeError_              (* builtins.RuntimeError *)
  | socks_ProxyError           (* python_socks.ProxyError(Exception) *)
  | socks_ProxyTimeoutError    (* python_socks.ProxyTimeoutError(TimeoutError) *)
  | socks_ProxyConnectionError (* python_socks.ProxyConnectionError(OSError) *)
  | UnsupportedProtocol        (* httpcore.* from here on *)
  | ProtocolError
  | RemoteProtocolError
  | LocalProtocolError
  | ProxyError
  | TimeoutException
  | PoolTimeout
  | ConnectTimeout
  | ReadTimeout
  | WriteTimeout
  | NetworkError
  | ConnectError
  | ReadError
  | WriteError
  | CloseError.

#[global] Instance ExnClass_eq_dec : EqDecision ExnClass.
Proof. solve_decision. Defined.

(** The direct base class, as the libraries declare it. *)
Definition base_class (c : ExnClass) : option ExnClass :=
  match c with
  | Exception_ => None
  | OSError_ | ValueError_ | KeyError_ | TypeError_ | RuntimeError_ => Some Exception_
  | TimeoutError_ | gaierror | ConnectionResetError_ => Some OSError_
  | socks_ProxyError => Some Exception_
  | socks_ProxyTimeoutError => Some TimeoutError_
  | socks_ProxyConnectionError => Some OSError_
  | UnsupportedProtocol | ProtocolError | ProxyError
  | TimeoutException | NetworkError => Some Exception_
  | RemoteProtocolError | LocalProtocolError => Some ProtocolError
  | PoolTimeout | ConnectTimeout | ReadTimeout | WriteTimeout => Some TimeoutException
  | ConnectError | ReadError | WriteError | CloseError => Some NetworkError
  end.

Fixpoint issubclass_upto (depth : nat) (c d : ExnClass) : bool :=
  if decide (c = d) then true
  else match depth with
       | O => false
       | S depth' =>
           match base_class c with
           | Some p => issubclass_upto depth' p d
           | None => false
           end
       end.

(** No class above sits deeper than three steps below [Exception]. *)
Definition issubclass : ExnClass → ExnClass → bool := issubclass_upto 4.

(** An exception object: one raised by a library ([Exc], with an identity),
    one built from a message, [cls(msg)], or around another, [cls(e)]. *)
Inductive Exn :=
  | Exc (cls : ExnClass) (ident : nat)
  | New (cls : ExnClass) (msg : string)
  | Wrap (cls : ExnClass) (cause : Exn).

Definition exn_class (e : Exn) : ExnClass :=
  match e with Exc c _ => c | New c _ => c | Wrap c _ => c end.

Definition isinstance (e : Exn) (c : ExnClass) : bool :=
  issubclass (exn_class e) c.

#[global] Instance Exn_eq_dec : EqDecision Exn.
Proof.
  intros x y; unfold Decision.
  decide equality;
    first [apply Nat.eq_dec | apply ExnClass_eq_dec | apply String.string_dec].
Defined.

Inductive Completion (A : Type) :=
  | Returns (a : A)
  | Raises (e : Exn).
Arguments Returns {A} a.
Arguments Raises {A} e.

Definition returned {A} (c : Completion A) : bool :=
  match c with Returns _ => true | Raises _ => false end.

(** ** The log *)

Inductive LogRecord :=
  | LogDebug (msg : string)
  | LogWarning (msg : string) (exc_info : Exn).

Abbreviation Log := (list LogRecord).

Definition is_warning (r : LogRecord) : bool :=
  match r with LogWarning _ _ => true | LogDebug _ => false end.

Definition warnings (l : Log) : nat := length (List.filter is_warning l).

(** ** Connection pool (httpcore.AsyncConnectionPool) *)

Inductive Scheme := Http | Https.

#[global] Instance Scheme_eq_dec : EqDecision Scheme.
Proof. solve_decision. Defined.

Record URL := {
  url_scheme : Scheme;
  url_host : string;
  url_port : option Z;
  url_target : string
}.

Definition Origin : Type := Scheme * string * Z.

(** httpcore._utils.url_to_origin: the explicit port, or the scheme's. *)
Definition url_to_origin (url : URL) : Origin :=
  let default_port := match url_scheme url with Http => 80%Z | Https => 443%Z end in
  (url_scheme url, url_host url,
   match url_port url with None => default_port | Some p => p end).

(** A pooled connection.  [conn_aclose] is what [connection.aclose()] does:
    [None] when it closes cleanly, [Some e] when it raises [e]. *)
Record Conn := {
  conn_id : nat;
  conn_origin : Origin;
  conn_aclose : option Exn
}.

#[global] Instance Conn_eq_dec : EqDecision Conn.
Proof. solve_decision. Defined.

(** The pool's registry, origin by origin, flattened; the order of the list
    is the order in which the registry's sets are iterated. *)
Abbreviation Pool := (list Conn).

Definition _connections_for_origin (origin : Origin) (pool : Pool) : list Conn :=
  filter (λ c, conn_origin c = origin) pool.

Definition _remove_from_pool (connection : Conn) (pool : Pool) : Pool :=
  filter (λ c, c ≠ connection) pool.

(** The body of [for connection in connections_to_close]. *)
Fixpoint close_each (connections_to_close : list Conn) (pool : Pool) (log : Log)
  : Completion unit * Pool * Log :=
  match connections_to_close with
  | [] => (Returns tt, pool, log)
  | connection :: rest =>
      let pool := _remove_from_pool connection pool in
      match conn_aclose connection with
      | None => close_each rest pool log
      | Some e =>
          if isinstance e NetworkError
          then close_each rest pool
                 (log ++ [LogWarning "Error closing an existing connection" e])
          else (Raises e, pool, log)
      end
  end.

Definition close_connections_for_url (connection_pool : Pool) (url : URL) (log : Log)
  : Completion unit * Pool * Log :=
  let origin := url_to_origin url in
  let log := log ++ [LogDebug "Drop connections for %r"] in
  let connections_to_close := _connections_for_origin origin connection_pool in
  close_each connections_to_close connection_pool log.

(** ** SSL context cache *)

(** What [httpx.create_ssl_context] builds: an object with an identity,
    made from the four arguments it is given. *)
Record SSLContext := {
  ctx_id : nat;                      (* object identity *)
  ctx_cert : option string;
  ctx_verify : bool + string;
  ctx_trust_env : bool;
  ctx_http2 : bool
}.

#[global] Instance SSLContext_eq_dec : EqDecision SSLContext.
Proof. solve_decision. Defined.

(** (proxy_url, cert, verify, trust_env, http2) *)
Abbreviation SSLKey :=
  (option string * option string * (bool + string) * bool * bool)%type.

(** The module global SSLCONTEXTS, and how many contexts
    [httpx.create_ssl_context] has built so far; each build yields a new
    object, whose identity is its rank. *)
Record SSLState := {
  SSLCONTEXTS : gmap SSLKey SSLContext;
  ssl_built : nat
}.

Definition create_ssl_context (cert : option string) (verify : bool + string)
    (trust_env http2 : bool) (rank : nat) : SSLContext :=
  {| ctx_id := rank; ctx_cert := cert; ctx_verify := verify;
     ctx_trust_env := trust_env; ctx_http2 := http2 |}.

(** [if key not in SSLCONTEXTS: SSLCONTEXTS[key] = ...] then
    [return SSLCONTEXTS[key]]: the entry found, or the one just stored.
    This is the call when [httpx.create_ssl_context] returns, which is how
    the client factory below uses it; [get_sslcontexts_checked] is the call
    with a constructor that may raise. *)
Definition get_sslcontexts (proxy_url cert : option string) (verify : bool + string)
    (trust_env http2 : bool) (s : SSLState) : SSLContext * SSLState :=
  let key : SSLKey := (proxy_url, cert, verify, trust_env, http2) in
  match SSLCONTEXTS s !! key with
  | None =>
      let ctx := create_ssl_context cert verify trust_env http2 (ssl_built s) in
      (ctx, {| SSLCONTEXTS := <[key := ctx]> (SSLCONTEXTS s);
               ssl_built := S (ssl_built s) |})
  | Some ctx => (ctx, s)
  end.

(** The same call, its five arguments given as the key they form. *)
Definition get_sslcontexts_key (key : SSLKey) (s : SSLState) : SSLContext * SSLState :=
  let '(proxy_url, cert, verify, trust_env, http2) := key in
  get_sslcontexts proxy_url cert verify trust_env http2 s.

(** A run of calls, one per key, keeping the last state. *)
Fixpoint get_sslcontexts_all (keys : list SSLKey) (s : SSLState) : SSLState :=
  match keys with
  | [] => s
  | key :: keys' => get_sslcontexts_all keys' (snd (get_sslcontexts_key key s))
  end.

(** [httpx.create_ssl_context] loads the CA bundle and the certificate it
    is given, and raises when one cannot be loaded.  Whether it does depends
    on its arguments and on the files at the time of the call: [failure]
    tells it for the arguments and for the rank of the call among the calls
    of the constructor. *)
Abbreviation SSLFailure :=
  (option string → bool + string → bool → bool → nat → option Exn).

(** The cache, and how often [httpx.create_ssl_context] has been called,
    the calls that raised included. *)
Record SSLRun := {
  run_state : SSLState;
  run_constructions : nat
}.

(** [get_sslcontexts] with a constructor that may raise: the assignment
    [SSLCONTEXTS[key] = ...] is not reached when the right-hand side raises,
    so nothing is stored and the error goes to the caller.  The definition
    [get_sslcontexts] above is the case where the constructor returns. *)
Definition get_sslcontexts_checked (failure : SSLFailure)
    (proxy_url cert : option string) (verify : bool + string)
    (trust_env http2 : bool) (r : SSLRun) : Completion SSLContext * SSLRun :=
  let key : SSLKey := (proxy_url, cert, verify, trust_env, http2) in
  match SSLCONTEXTS (run_state r) !! key with
  | None =>
      match failure cert verify trust_env http2 (run_constructions r) with
      | Some e =>
          (Raises e, {| run_state := run_state r;
                        run_constructions := S (run_constructions r) |})
      | None =>
          let ctx := create_ssl_context cert verify trust_env http2
                       (ssl_built (run_state r)) in
          (Returns ctx,
           {| run_state := {| SSLCONTEXTS := <[key := ctx]> (SSLCONTEXTS (run_state r));
                              ssl_built := S (ssl_built (run_state r)) |};
              run_constructions := S (run_constructions r) |})
      end
  | Some ctx => (Returns ctx, r)
  end.



(** ** Transports *)

Record Request := {
  method : string;
  url : URL;
  headers : list (string * string);
  stream : option string;
  ext : option string
}.

Record Response := {
  status_code : Z;
  resp_body : string
}.

(** [super().arequest]: what the wrapped transport does on its n-th call for
    this request, in the pool as it then is; it may pool new connections. *)
Definition Underlying := Request → nat → Pool → Completion Response * Pool.

Record TState := {
  ts_pool : Pool;
  ts_log : Log;
  ts_calls : nat                     (* calls of [super().arequest] so far *)
}.

Definition call_super (super_arequest : Underlying) (req : Request) (st : TState)
  : Completion Response * TState :=
  let '(r, pool) := super_arequest req (ts_calls st) (ts_pool st) in
  (r, {| ts_pool := pool; ts_log := ts_log st; ts_calls := S (ts_calls st) |}).

(** [await close_connections_for_url(pool, url)] inside a handler. *)
Definition evict (req : Request) (st : TState) : Completion unit * TState :=
  let '(c, pool, log) := close_connections_for_url (ts_pool st) (url req) (ts_log st) in
  (c, {| ts_pool := pool; ts_log := log; ts_calls := ts_calls st |}).

Definition log_warning (msg : string) (e : Exn) (st : TState) : TState :=
  {| ts_pool := ts_pool st; ts_log := ts_log st ++ [LogWarning msg e];
     ts_calls := ts_calls st |}.

(** class AsyncHTTPTransportNoHttp *)
Definition AsyncHTTPTransportNoHttp_arequest (req : Request) (st : TState)
  : Completion (option Response) * TState :=
  (Raises (New UnsupportedProtocol "HTTP protocol is disabled"), st).

(** class AsyncProxyTransportFixed: the [while retry > 0] loop; leaving the
    loop falls off the end of the function, which returns None. *)
Fixpoint AsyncProxyTransportFixed_loop (super_arequest : Underlying) (req : Request)
    (retry : nat) (st : TState) : Completion (option Response) * TState :=
  match retry with
  | O => (Returns None, st)
  | S retry =>
      let '(r, st) := call_super super_arequest req st in
      match r with
      | Returns response => (Returns (Some response), st)
      | Raises e =>
          if isinstance e socks_ProxyConnectionError
             || isinstance e socks_ProxyTimeoutError
             || isinstance e socks_ProxyError
          then (Raises (Wrap ProxyError e), st)
          else if isinstance e OSError_
          then (Raises (Wrap NetworkError e), st)
          else if isinstance e RemoteProtocolError
          then match evict req st with
               | (Raises e', st) => (Raises e', st)
               | (Returns _, st) =>
                   AsyncProxyTransportFixed_loop super_arequest req retry
                     (log_warning "httpcore.RemoteProtocolError: retry" e st)
               end
          else if isinstance e NetworkError || isinstance e ProtocolError
          then match evict req st with
               | (Raises e', st) => (Raises e', st)
               | (Returns _, st) => (Raises e, st)
               end
          else (Raises e, st)
      end
  end.

Definition AsyncProxyTransportFixed_arequest (super_arequest : Underlying)
    (req : Request) (st : TState) : Completion (option Response) * TState :=
  AsyncProxyTransportFixed_loop super_arequest req 2 st.

(** class AsyncHTTPTransportFixed *)
Fixpoint AsyncHTTPTransportFixed_loop (super_arequest : Underlying) (req : Request)
    (retry : nat) (st : TState) : Completion (option Response) * TState :=
  match retry with
  | O => (Returns None, st)
  | S retry =>
      let '(r, st) := call_super super_arequest req st in
      match r with
      | Returns response => (Returns (Some response), st)
      | Raises e =>
          if isinstance e OSError_
          then (Raises (Wrap ConnectError e), st)
          else if isinstance e CloseError
          then match evict req st with
               | (Raises e', st) => (Raises e', st)
               | (Returns _, st) =>
                   AsyncHTTPTransportFixed_loop super_arequest req retry
                     (log_warning "httpcore.CloseError: retry" e st)
               end
          else if isinstance e RemoteProtocolError
          then match evict req st with
               | (Raises e', st) => (Raises e', st)
               | (Returns _, st) =>
                   AsyncHTTPTransportFixed_loop super_arequest req retry
                     (log_warning "httpcore.RemoteProtocolError: retry" e st)
               end
          else if isinstance e ProtocolError || isinstance e NetworkError
          then match evict req st with
               | (Raises e', st) => (Raises e', st)
               | (Returns _, st) => (Raises e, st)
               end
          else (Raises e, st)
      end
  end.

Definition AsyncHTTPTransportFixed_arequest (super_arequest : Underlying)
    (req : Request) (st : TState) : Completion (option Response) * TState :=
  AsyncHTTPTransportFixed_loop super_arequest req 2 st.

(** How often [close_connections_for_url] ran: it logs one debug record
    each time, and nothing else logs at that level. *)
Definition evictions (l : Log) : nat :=
  length (List.filter (λ r, negb (is_warning r)) l).

(** ** Client factory *)

(** What callers pass as [verify]: a boolean, a CA bundle path, or a context
    built earlier. *)
Inductive Verify :=
  | VerifyBool (b : bool)
  | VerifyPath (path : string)
  | VerifyContext (ctx : SSLContext).

(** httpx.Limits *)
Record Limits := {
  max_connections : option nat;
  max_keepalive_connections : option nat;
  keepalive_expiry : option Q
}.

(** What the factory takes from its libraries and module globals:
    [python_socks.parse_proxy_url] and [httpx._config.Proxy], which reject
    some URLs, and the event loop handle LOOP. *)
Record ClientEnv := {
  parse_proxy_url : string → Completion (string * string * Z * option string * option string);
  httpx_Proxy : string → Completion string;
  LOOP : option nat
}.

(** A transport object, by its class and constructor arguments;
    the last two arguments of the fixed transports are TRANSPORT_KWARGS. *)
Inductive Transport :=
  | AsyncHTTPTransportNoHttp
  | AsyncHTTPTransportFixed (verify : Verify) (http2 : bool)
      (local_address : option string) (proxy : option string)
      (limits : Limits) (retries : nat) (backend : string) (trust_env : bool)
  | AsyncProxyTransportFixed (proxy_type proxy_host : string) (proxy_port : Z)
      (username password : option string) (rdns : bool) (loop : option nat)
      (verify : Verify) (http2 : bool) (local_address : option string)
      (max_conn max_keepalive : option nat) (expiry : option Q)
      (retries : nat) (backend : string) (trust_env : bool).

Definition TRANSPORT_KWARGS : string * bool := ("asyncio", false).

Definition get_loop (env : ClientEnv) : option nat := LOOP env.

(** [s[n:]] *)
Definition string_from (n : nat) (s : string) : string :=
  String.substring n (String.length s - n) s.

Definition startswith (s p : string) : bool := String.prefix p s.

(** The factory functions are followed in what they compute and in the
    errors of [parse_proxy_url] and [httpx._config.Proxy]; the constructors
    of the transport classes and of the SSL context are followed where they
    return. *)
Definition get_transport_for_socks_proxy (env : ClientEnv) (verify : Verify)
    (http2 : bool) (local_address : option string) (proxy_url : string)
    (limit : Limits) (retries : nat) (s : SSLState)
  : Completion Transport * SSLState :=
  let socks5h := "socks5h://" in
  let '(proxy_url, rdns) :=
    if startswith proxy_url socks5h
    then (String.append "socks5://" (string_from (String.length socks5h) proxy_url), true)
    else (proxy_url, false) in
  match parse_proxy_url env proxy_url with
  | Raises e => (Raises e, s)
  | Returns (proxy_type, proxy_host, proxy_port, proxy_username, proxy_password) =>
      let '(verify, s) :=
        match verify with
        | VerifyBool true =>
            let '(ctx, s) := get_sslcontexts (Some proxy_url) None (inl true) false http2 s in
            (VerifyContext ctx, s)
        | _ => (verify, s)
        end in
      (Returns (AsyncProxyTransportFixed proxy_type proxy_host proxy_port
                  proxy_username proxy_password rdns (get_loop env) verify http2
                  local_address (max_connections limit)
                  (max_keepalive_connections limit) (keepalive_expiry limit)
                  retries (fst TRANSPORT_KWARGS) (snd TRANSPORT_KWARGS)), s)
  end.

Definition get_transport (env : ClientEnv) (verify : Verify) (http2 : bool)
    (local_address : option string) (proxy_url : option string)
    (limit : Limits) (retries : nat) (s : SSLState)
  : Completion Transport * SSLState :=
  let '(verify, s) :=
    match verify with
    | VerifyBool true =>
        let '(ctx, s) := get_sslcontexts None None (inl true) false http2 s in
        (VerifyContext ctx, s)
    | _ => (verify, s)
    end in
  let proxy :=
    match proxy_url with
    | Some u => if String.eqb u "" then Returns None
                else match httpx_Proxy env u with
                     | Returns p => Returns (Some p)
                     | Raises e => Raises e
                     end
    | None => Returns None
    end in
  match proxy with
  | Raises e => (Raises e, s)
  | Returns proxy =>
      (Returns (AsyncHTTPTransportFixed verify http2 local_address proxy limit
                  retries (fst TRANSPORT_KWARGS) (snd TRANSPORT_KWARGS)), s)
  end.

(** The [proxies] setting: one URL, a mapping in its own order, or neither. *)
Inductive Proxies :=
  | ProxiesStr (proxy_url : string)
  | ProxiesDict (items : list (string * string))
  | ProxiesOther.

Definition iter_proxies (proxies : Proxies) : list (string * string) :=
  match proxies with
  | ProxiesStr proxy_url => [("all://", proxy_url)]
  | ProxiesDict items => items
  | ProxiesOther => []
  end.

(** [not enable_http and (pattern == 'http' or pattern.startswith('http://'))] *)
Definition http_pattern_blocked (enable_http : bool) (pattern : string) : bool :=
  negb enable_http && (String.eqb pattern "http" || startswith pattern "http://").

Record Client := {
  client_transport : Transport;
  client_mounts : gmap string Transport;
  client_max_redirects : nat
}.

(** The [for pattern, proxy_url in iter_proxies(proxies)] loop. *)
Fixpoint mount_proxies (env : ClientEnv) (enable_http : bool) (verify : Verify)
    (enable_http2 : bool) (local_address : option string) (limit : Limits)
    (retries : nat) (items : list (string * string))
    (mounts : gmap string Transport) (s : SSLState)
  : Completion (gmap string Transport) * SSLState :=
  match items with
  | [] => (Returns mounts, s)
  | (pattern, proxy_url) :: rest =>
      if http_pattern_blocked enable_http pattern
      then mount_proxies env enable_http verify enable_http2 local_address limit
             retries rest mounts s
      else
        let '(t, s) :=
          if startswith proxy_url "socks4://"
             || startswith proxy_url "socks5://"
             || startswith proxy_url "socks5h://"
          then get_transport_for_socks_proxy env verify enable_http2 local_address
                 proxy_url limit retries s
          else get_transport env verify enable_http2 local_address
                 (Some proxy_url) limit retries s in
        match t with
        | Raises e => (Raises e, s)
        | Returns t =>
            mount_proxies env enable_http verify enable_http2 local_address limit
              retries rest (<[pattern := t]> mounts) s
        end
  end.

Definition new_client (env : ClientEnv) (enable_http : bool) (verify : Verify)
    (enable_http2 : bool) (max_conn max_keepalive : option nat)
    (expiry : option Q) (proxies : Proxies) (local_address : option string)
    (retries max_redirects : nat) (s : SSLState)
  : Completion Client * SSLState :=
  let limit := {| max_connections := max_conn;
                  max_keepalive_connections := max_keepalive;
                  keepalive_expiry := expiry |} in
  match mount_proxies env enable_http verify enable_http2 local_address limit
          retries (iter_proxies proxies) ∅ s with
  | (Raises e, s) => (Raises e, s)
  | (Returns mounts, s) =>
      let mounts :=
        if negb enable_http then <["http://" := AsyncHTTPTransportNoHttp]> mounts
        else mounts in
      match get_transport env verify enable_http2 local_address None limit retries s with
      | (Raises e, s) => (Raises e, s)
      | (Returns transport, s) =>
          (Returns {| client_transport := transport; client_mounts := mounts;
                      client_max_redirects := max_redirects |}, s)
      end
  end.

(** What a mounted transport does with a request: the blocking transport
    raises at once; the fixed ones run their retry loop over the transport
    they wrap. *)
Definition Transport_arequest (t : Transport) (super_arequest : Underlying)
    (req : Request) (st : TState) : Completion (option Response) * TState :=
  match t with
  | AsyncHTTPTransportNoHttp => AsyncHTTPTransportNoHttp_arequest req st
  | AsyncHTTPTransportFixed _ _ _ _ _ _ _ _ =>
      AsyncHTTPTransportFixed_arequest super_arequest req st
  | AsyncProxyTransportFixed _ _ _ _ _ _ _ _ _ _ _ _ _ _ _ _ =>
      AsyncProxyTransportFixed_arequest super_arequest req st
  end.

(** ** Search orchestrator *)

(** The Python values an attribute such as [redirect_url] may hold. *)
Inductive PyVal :=
  | PyNone
  | PyStr (s : string)
  | PyInt (z : Z).

Definition truthy (v : PyVal) : bool :=
  match v with
  | PyNone => false
  | PyStr s => negb (String.eqb s "")
  | PyInt z => negb (z =? 0)%Z
  end.

(** [isinstance(v, str)] *)
Definition is_str (v : PyVal) : bool :=
  match v with PyStr _ => true | _ => false end.

(** [b < a] on numbers, and the builtins [min(a, b)] and [max(a, b)], which
    keep their first argument unless the second is strictly better. *)
Definition py_lt (a b : Q) : bool := negb (Qle_bool b a).
Definition py_min (a b : Q) : Q := if py_lt b a then b else a.
Definition py_max (a b : Q) : Q := if py_lt a b then b else a.

Record EngineRef := {
  er_name : string;
  er_category : string
}.

Record SearchQuery := {
  query : string;
  engineref_list : list EngineRef;
  timeout_limit : option Q;
  external_bang : PyVal
}.

Definition RequestParams := list (string * string).

(** (engine name, query, request_params) *)
Definition RequestTuple : Type := string * string * RequestParams.

(** searx.results.ResultContainer, as far as the orchestrator touches it:
    the [redirect_url] attribute, the calls of [extend] and the unresponsive
    engine records. *)
Record ResultContainer := {
  redirect_url : PyVal;
  extended : list (string * list string);
  unresponsive_engines : list (string * string)
}.

Definition ResultContainer_new : ResultContainer :=
  {| redirect_url := PyNone; extended := []; unresponsive_engines := [] |}.

Definition set_redirect_url (v : PyVal) (rc : ResultContainer) : ResultContainer :=
  {| redirect_url := v; extended := extended rc;
     unresponsive_engines := unresponsive_engines rc |}.

Definition extend (kind : string) (results : list string) (rc : ResultContainer)
  : ResultContainer :=
  {| redirect_url := redirect_url rc; extended := extended rc ++ [(kind, results)];
     unresponsive_engines := unresponsive_engines rc |}.

Definition add_unresponsive_engine (engine_name reason : string)
    (rc : ResultContainer) : ResultContainer :=
  {| redirect_url := redirect_url rc; extended := extended rc;
     unresponsive_engines := unresponsive_engines rc ++ [(engine_name, reason)] |}.

(** An engine processor: the three members [_get_requests] uses. *)
Record Processor := {
  extend_container_if_suspended : ResultContainer → bool * ResultContainer;
  get_params : SearchQuery → string → option RequestParams;
  engine_timeout : Q
}.

(** A thread of the search as the join loop meets it: its engine, what
    [default_timer()] reads when its turn comes, and what [th.is_alive()]
    answers after [th.join(remaining_time)]. *)
Record JoinedThread := {
  th_engine_name : string;
  th_clock : Q;
  th_alive_after : Q → bool
}.

(** The collaborators of the orchestrator: the bang and answerer
    subsystems, the processor table, the outgoing settings, the clock read
    by [search], and the engine threads.  Of the threads the orchestrator
    sees two things: [workers], what they have written into the container,
    and [joined], the threads of the search that [threading.enumerate()]
    still lists when the join loop runs, in its order. *)
Record SearchEnv := {
  get_bang_url : SearchQuery → PyVal;
  ask : SearchQuery → list (list string);
  PROCESSORS : gmap string Processor;
  max_request_timeout : option Q;
  default_timer : Q;
  workers : list RequestTuple → option Q → option Q → ResultContainer → ResultContainer;
  joined : list RequestTuple → list JoinedThread
}.

(** Calls made on behalf of one search, in order. *)
Inductive Call :=
  | call_search_answerers
  | call_search_standard
  | call_counter_inc (engine_name : string)
  | call_thread_start (engine_name : string).

#[global] Instance Call_eq_dec : EqDecision Call.
Proof. solve_decision. Defined.

(** class Search: its four slots, and the calls it has made. *)
Record Search := {
  search_query : SearchQuery;
  result_container : ResultContainer;
  start_time : option Q;
  actual_timeout : option Q;
  calls : list Call
}.

Definition Search_init (search_query : SearchQuery) : Search :=
  {| search_query := search_query; result_container := ResultContainer_new;
     start_time := None; actual_timeout := None; calls := [] |}.

Definition with_container (rc : ResultContainer) (self : Search) : Search :=
  {| search_query := search_query self; result_container := rc;
     start_time := start_time self; actual_timeout := actual_timeout self;
     calls := calls self |}.

Definition with_call (c : Call) (self : Search) : Search :=
  {| search_query := search_query self; result_container := result_container self;
     start_time := start_time self; actual_timeout := actual_timeout self;
     calls := calls self ++ [c] |}.

Definition search_external_bang (env : SearchEnv) (self : Search) : bool * Search :=
  if truthy (external_bang (search_query self))
  then
    let self := with_container
                  (set_redirect_url (get_bang_url env (search_query self))
                     (result_container self)) self in
    if is_str (redirect_url (result_container self))
    then (true, self)
    else (false, self)
  else (false, self).

Definition search_answerers (env : SearchEnv) (self : Search) : bool * Search :=
  let self := with_call call_search_answerers self in
  let answerers_results := ask env (search_query self) in
  match answerers_results with
  | [] => (false, self)
  | _ =>
      (true, with_container
               (fold_left (λ rc results, extend "answer" results rc)
                  answerers_results (result_container self)) self)
  end.

(** The [for engineref in self.search_query.engineref_list] loop. *)
Fixpoint _get_requests_loop (env : SearchEnv) (engineref_list : list EngineRef)
    (requests : list RequestTuple) (default_timeout : Q) (self : Search)
  : Completion (list RequestTuple * Q) * Search :=
  match engineref_list with
  | [] => (Returns (requests, default_timeout), self)
  | engineref :: rest =>
      match PROCESSORS env !! er_name engineref with
      | None => (Raises (New KeyError_ (er_name engineref)), self)
      | Some processor =>
          let '(suspended, rc) :=
            extend_container_if_suspended processor (result_container self) in
          let self := with_container rc self in
          if suspended
          then _get_requests_loop env rest requests default_timeout self
          else
            match get_params processor (search_query self) (er_category engineref) with
            | None => _get_requests_loop env rest requests default_timeout self
            | Some request_params =>
                let self := with_call (call_counter_inc (er_name engineref)) self in
                let requests :=
                  requests ++ [(er_name engineref, query (search_query self), request_params)] in
                let default_timeout := py_max default_timeout (engine_timeout processor) in
                _get_requests_loop env rest requests default_timeout self
            end
      end
  end.

Definition _get_requests (env : SearchEnv) (self : Search)
  : Completion (list RequestTuple * Q) * Search :=
  match _get_requests_loop env (engineref_list (search_query self)) [] 0%Q self with
  | (Raises e, self) => (Raises e, self)
  | (Returns (requests, default_timeout), self) =>
      let max_request_timeout := max_request_timeout env in
      let query_timeout := timeout_limit (search_query self) in
      let actual_timeout :=
        match max_request_timeout, query_timeout with
        | None, None => default_timeout
        | None, Some query_timeout => py_min default_timeout query_timeout
        | Some max_request_timeout, None => py_min default_timeout max_request_timeout
        | Some max_request_timeout, Some query_timeout =>
            py_min query_timeout max_request_timeout
        end in
      (Returns (requests, actual_timeout), self)
  end.

(** The body of the join loop for the threads still listed, with
    [self.start_time] and [self.actual_timeout] both numbers:
    [remaining_time = max(0.0, actual_timeout - (default_timer() - start_time))],
    the join, and the record of a thread still alive after it as
    unresponsive, with the reason 'timeout'. *)
Definition record_timeouts (start_time actual_timeout : Q)
    (threads : list JoinedThread) (rc : ResultContainer) : ResultContainer :=
  fold_left (λ rc th,
               let remaining_time :=
                 py_max 0 (actual_timeout - (th_clock th - start_time)) in
               if th_alive_after th remaining_time
               then add_unresponsive_engine (th_engine_name th) "timeout" rc
               else rc)
    threads rc.

(** The [for engine_name, query, request_params in requests] loop: the
    target of each thread is looked up in PROCESSORS, a lookup that raises
    KeyError for an engine without processor, and the thread is started
    (the creation of a thread is taken to succeed).  [started] collects the
    requests whose thread runs. *)
Fixpoint start_threads (env : SearchEnv) (requests started : list RequestTuple)
    (self : Search) : Completion unit * list RequestTuple * Search :=
  match requests with
  | [] => (Returns tt, started, self)
  | r :: rest =>
      match PROCESSORS env !! r.1.1 with
      | None => (Raises (New KeyError_ (r.1.1)), started, self)
      | Some _ =>
          start_threads env rest (started ++ [r])
            (with_call (call_thread_start (r.1.1)) self)
      end
  end.

(** One thread is started per request; the container is from then on what
    the threads started make of it.  Then, for each thread of the search
    still listed, [remaining_time] is computed from [self.actual_timeout],
    the clock and [self.start_time] (a subtraction that raises TypeError
    when one of the two is None), the thread is joined, and a thread that
    is still alive is recorded as timed out. *)
Definition search_multiple_requests (env : SearchEnv) (requests : list RequestTuple)
    (self : Search) : Completion unit * Search :=
  let '(outcome, started, self) := start_threads env requests [] self in
  let self := with_container
                (workers env started (start_time self) (actual_timeout self)
                   (result_container self)) self in
  match outcome with
  | Raises e => (Raises e, self)
  | Returns _ =>
      match joined env requests with
      | [] => (Returns tt, self)
      | threads =>
          match start_time self, actual_timeout self with
          | None, _ =>
              (Raises (New TypeError_
                         "unsupported operand type(s) for -: 'float' and 'NoneType'"),
               self)
          | Some _, None =>
              (Raises (New TypeError_
                         "unsupported operand type(s) for -: 'NoneType' and 'float'"),
               self)
          | Some start_time, Some actual_timeout =>
              (Returns tt,
               with_container
                 (record_timeouts start_time actual_timeout threads
                    (result_container self)) self)
          end
      end
  end.

Definition search_standard (env : SearchEnv) (self : Search) : Completion bool * Search :=
  let self := with_call call_search_standard self in
  match _get_requests env self with
  | (Raises e, self) => (Raises e, self)
  | (Returns (requests, actual_timeout), self) =>
      let self := {| search_query := search_query self;
                     result_container := result_container self;
                     start_time := start_time self;
                     actual_timeout := Some actual_timeout;
                     calls := calls self |} in
      match requests with
      | [] => (Returns true, self)
      | _ =>
          match search_multiple_requests env requests self with
          | (Raises e, self) => (Raises e, self)
          | (Returns _, self) => (Returns true, self)
          end
      end
  end.

Definition search (env : SearchEnv) (self : Search)
  : Completion ResultContainer * Search :=
  let self := {| search_query := search_query self;
                 result_container := result_container self;
                 start_time := Some (default_timer env);
                 actual_timeout := actual_timeout self;
                 calls := calls self |} in
  let '(bang, self) := search_external_bang env self in
  if negb bang
  then
    let '(answered, self) := search_answerers env self in
    if negb answered
    then match search_standard env self with
         | (Raises e, self) => (Raises e, self)
         | (Returns _, self) => (Returns (result_container self), self)
         end
    else (Returns (result_container self), self)
  else (Returns (result_container self), self).

(** ** Notions used in the statements *)

(** [connection.aclose()] returns, or raises within httpcore.NetworkError. *)
Definition closes_quietly (c : Conn) : bool :=
  match conn_aclose c with
  | None => true
  | Some e => isinstance e NetworkError
  end.

(** The warnings an eviction of [cs] logs when every close is quiet. *)
Definition close_warnings (cs : list Conn) : Log :=
  flat_map (λ c, match conn_aclose c with
                 | Some e => [LogWarning "Error closing an existing connection" e]
                 | None => []
                 end) cs.

(** The two error classes after which the transports try again. *)
Definition stale_connection_error (e : Exn) : bool :=
  isinstance e CloseError || isinstance e RemoteProtocolError.

(** ** Sample data *)

Definition origin_a : Origin := (Https, "a.example", 443%Z).
Definition origin_b : Origin := (Https, "b.example", 443%Z).

Definition url_a : URL :=
  {| url_scheme := Https; url_host := "a.example"; url_port := None;
     url_target := "/search" |}.

Definition conn_a1 : Conn :=
  {| conn_id := 1; conn_origin := origin_a; conn_aclose := None |}.
Definition conn_a2 : Conn :=
  {| conn_id := 2; conn_origin := origin_a;
     conn_aclose := Some (Exc CloseError 20) |}.
Definition conn_b1 : Conn :=
  {| conn_id := 3; conn_origin := origin_b; conn_aclose := None |}.
(** A connection whose close raises outside httpcore.NetworkError. *)
Definition conn_a_bad : Conn :=
  {| conn_id := 4; conn_origin := origin_a;
     conn_aclose := Some (Exc RuntimeError_ 40) |}.

Definition pool_ab : Pool := [conn_a1; conn_b1; conn_a2].
Definition pool_bad : Pool := [conn_a_bad; conn_b1; conn_a1].

Definition request_a : Request :=
  {| method := "GET"; url := url_a; headers := []; stream := None; ext := None |}.

Definition response_ok : Response := {| status_code := 200; resp_body := "ok" |}.

(** Wrapped transports: every call raises [e]; the first call raises [e] and
    the next ones answer. *)
Definition always_raises (e : Exn) : Underlying :=
  λ _ _ pool, (Raises e, pool).
Definition raises_once (e : Exn) : Underlying :=
  λ _ n pool, match n with
              | O => (Raises e, pool)
              | S _ => (Returns response_ok, pool)
              end.

Definition tstate0 (pool : Pool) : TState :=
  {| ts_pool := pool; ts_log := []; ts_calls := 0 |}.

(** The state a quiet eviction leaves after the wrapped transport has
    raised once and left [pool1] behind. *)
Definition after_eviction (req : Request) (st : TState) (pool1 : Pool) : TState :=
  let origin := url_to_origin (url req) in
  {| ts_pool := filter (λ c, conn_origin c ≠ origin) pool1;
     ts_log := ts_log st ++ [LogDebug "Drop connections for %r"]
               ++ close_warnings (_connections_for_origin origin pool1);
     ts_calls := S (ts_calls st) |}.

(** The warning the direct transport logs before trying again. *)
Definition retry_message (e : Exn) : string :=
  if isinstance e CloseError then "httpcore.CloseError: retry"
  else "httpcore.RemoteProtocolError: retry".

(** A factory environment and a proxy mapping with a plaintext entry. *)
Definition client_env : ClientEnv :=
  {| parse_proxy_url := λ _, Returns ("socks5", "127.0.0.1", 9050%Z, None, None);
     httpx_Proxy := λ u, Returns u;
     LOOP := Some 0%nat |}.

Definition proxies_mixed : Proxies :=
  ProxiesDict [("http://", "http://proxy.example:3128");
               ("https://", "socks5h://127.0.0.1:9050")].

Definition ssl_state0 : SSLState := {| SSLCONTEXTS := ∅; ssl_built := 0 |}.

(** An environment whose bang subsystem answers the empty string. *)
Definition env_bang_empty : SearchEnv :=
  {| get_bang_url := λ _, PyStr "";
     ask := λ _, [];
     PROCESSORS := ∅;
     max_request_timeout := None;
     default_timer := 0;
     workers := λ _ _ _ rc, rc;
     joined := λ _, [] |}.

(** An orchestrator environment with two engines, of timeouts 10 and 4, that
    are never suspended and always give parameters. *)
Definition processor_of (timeout : Q) : Processor :=
  {| extend_container_if_suspended := λ rc, (false, rc);
     get_params := λ _ _, Some [];
     engine_timeout := timeout |}.

Definition search_env (bang_url : PyVal) (answers : list (list string))
    (ceiling : option Q) : SearchEnv :=
  {| get_bang_url := λ _, bang_url;
     ask := λ _, answers;
     PROCESSORS := <["wikipedia" := processor_of 10]>
                     (<["duckduckgo" := processor_of 4]> ∅);
     max_request_timeout := ceiling;
     default_timer := 0;
     workers := λ _ _ _ rc, rc;
     joined := λ _, [] |}.

(** The same environment, where the thread of the second engine outlives
    its join and the thread of the first has ended before the loop. *)
Definition env_slow : SearchEnv :=
  {| get_bang_url := λ _, PyNone;
     ask := λ _, [];
     PROCESSORS := <["wikipedia" := processor_of 10]>
                     (<["duckduckgo" := processor_of 4]> ∅);
     max_request_timeout := None;
     default_timer := 0;
     workers := λ _ _ _ rc, rc;
     joined := λ _, [ {| th_engine_name := "wikipedia"; th_clock := 12;
                         th_alive_after := λ _, true |} ] |}.

Definition query_of (limit : option Q) (bang : PyVal) : SearchQuery :=
  {| query := "rocq";
     engineref_list := [ {| er_name := "duckduckgo"; er_category := "general" |};
                         {| er_name := "wikipedia"; er_category := "general" |} ];
     timeout_limit := limit;
     external_bang := bang |}.

Definition requests_both : list RequestTuple :=
  [("duckduckgo", "rocq", []); ("wikipedia", "rocq", [])].

Definition calls_both : list Call :=
  [call_counter_inc "duckduckgo"; call_counter_inc "wikipedia"].

Definition env_plain : SearchEnv := search_env PyNone [] None.
Definition env_ceiling : SearchEnv := search_env PyNone [] (Some 3%Q).
Definition env_bang : SearchEnv :=
  search_env (PyStr "https://example.org/?q=rocq") [] None.
Definition env_answer : SearchEnv := search_env PyNone [["4"]] None.

Definition search_limited : Search := Search_init (query_of (Some 5%Q) PyNone).
Definition search_limited_after : Search :=
  {| search_query := query_of (Some 5%Q) PyNone;
     result_container := ResultContainer_new;
     start_time := None; actual_timeout := None;
     calls := calls_both |}.
Definition search_banged : Search := Search_init (query_of None (PyStr "ex")).

(** Errors for which neither transport has a handler: not an OSError, not a
    python_socks error, not an httpcore.NetworkError or ProtocolError. *)
Definition unhandled (e : Exn) : bool :=
  negb (isinstance e OSError_)
  && negb (isinstance e socks_ProxyError)
  && negb (isinstance e NetworkError)
  && negb (isinstance e ProtocolError).

(** What a transport was given as [verify], whether it is the SOCKS class,
    and its [rdns] flag. *)
Definition transport_verify (t : Transport) : option Verify :=
  match t with
  | AsyncHTTPTransportNoHttp => None
  | AsyncHTTPTransportFixed verify _ _ _ _ _ _ _ => Some verify
  | AsyncProxyTransportFixed _ _ _ _ _ _ _ verify _ _ _ _ _ _ _ _ => Some verify
  end.

Definition is_socks_transport (t : Transport) : bool :=
  match t with
  | AsyncProxyTransportFixed _ _ _ _ _ _ _ _ _ _ _ _ _ _ _ _ => true
  | _ => false
  end.

Definition is_direct_transport (t : Transport) : bool :=
  match t with
  | AsyncHTTPTransportFixed _ _ _ _ _ _ _ _ => true
  | _ => false
  end.

Definition transport_rdns (t : Transport) : option bool :=
  match t with
  | AsyncProxyTransportFixed _ _ _ _ _ rdns _ _ _ _ _ _ _ _ _ _ => Some rdns
  | _ => None
  end.

(** The test [new_client] makes on a proxy URL to choose the SOCKS class. *)
Definition socks_url (proxy_url : string) : bool :=
  startswith proxy_url "socks4://"
  || startswith proxy_url "socks5://"
  || startswith proxy_url "socks5h://".

(** The state of the cache as calls of [get_sslcontexts] leave it: every
    cached context was built from the arguments in its key, by one of the
    builds counted so far, and no two keys hold the same object. *)
Definition ssl_cache_ok (s : SSLState) : Prop :=
  (∀ proxy_url cert verify trust_env http2 ctx,
     SSLCONTEXTS s !! (proxy_url, cert, verify, trust_env, http2) = Some ctx →
     ctx = create_ssl_context cert verify trust_env http2 (ctx_id ctx)
     ∧ (ctx_id ctx < ssl_built s)%nat)
  ∧ (∀ k1 k2 c1 c2,
       SSLCONTEXTS s !! k1 = Some c1 → SSLCONTEXTS s !! k2 = Some c2 →
       ctx_id c1 = ctx_id c2 → k1 = k2)
  ∧ size (SSLCONTEXTS s) = ssl_built s.

(** ** Search with plugins *)

(** The hooks [plugins.call] is asked to run; a result of the ordered list
    is kept opaque. *)
Inductive Hook :=
  | pre_search
  | post_search
  | on_result (result : string).

(** [searx.plugins.plugins.call] for the plugin list and request of one
    search, and [ResultContainer.get_ordered_results]: neither is among
    the sources.  A hook may change the search object it is handed, and a
    hook that raises is not caught by [plugins.call]. *)
Record PluginEnv := {
  plugins_call : Hook → Search → Completion bool * Search;
  get_ordered_results : ResultContainer → Completion (list string)
}.

(** One call of [plugins.call]; the record of calls made on behalf of the
    search is the model's own and no hook reaches it. *)
Definition call_hook (penv : PluginEnv) (hook : Hook) (self : Search)
    (hooks : list Hook) : Completion bool * Search * list Hook :=
  let '(answer, self') := plugins_call penv hook self in
  (answer, {| search_query := search_query self';
              result_container := result_container self';
              start_time := start_time self';
              actual_timeout := actual_timeout self';
              calls := calls self |}, hooks ++ [hook]).

(** The [for result in results] loop of [SearchWithPlugins.search]. *)
Fixpoint call_on_result (penv : PluginEnv) (results : list string) (self : Search)
    (hooks : list Hook) : Completion unit * Search * list Hook :=
  match results with
  | [] => (Returns tt, self, hooks)
  | result :: rest =>
      match call_hook penv (on_result result) self hooks with
      | (Raises e, self, hooks) => (Raises e, self, hooks)
      | (Returns _, self, hooks) => call_on_result penv rest self hooks
      end
  end.

(** [SearchWithPlugins.search] from the post_search hook on. *)
Definition call_post_hooks (penv : PluginEnv) (self : Search) (hooks : list Hook)
  : Completion ResultContainer * Search * list Hook :=
  match call_hook penv post_search self hooks with
  | (Raises e, self, hooks) => (Raises e, self, hooks)
  | (Returns _, self, hooks) =>
      match get_ordered_results penv (result_container self) with
      | Raises e => (Raises e, self, hooks)
      | Returns results =>
          match call_on_result penv results self hooks with
          | (Raises e, self, hooks) => (Raises e, self, hooks)
          | (Returns _, self, hooks) => (Returns (result_container self), self, hooks)
          end
      end
  end.

(** class SearchWithPlugins: [search], with the hooks called so far. *)
Definition SearchWithPlugins_search (env : SearchEnv) (penv : PluginEnv)
    (self : Search) (hooks : list Hook)
  : Completion ResultContainer * Search * list Hook :=
  match call_hook penv pre_search self hooks with
  | (Raises e, self, hooks) => (Raises e, self, hooks)
  | (Returns ok, self, hooks) =>
      let '(searched, self) :=
        if ok then search env self else (Returns (result_container self), self) in
      match searched with
      | Raises e => (Raises e, self, hooks)
      | Returns _ => call_post_hooks penv self hooks
      end
  end.

(** The search object as one hook leaves it, and as the on_result hooks of
    a list of results leave it. *)
Definition after_hook (penv : PluginEnv) (hook : Hook) (self : Search) : Search :=
  (call_hook penv hook self []).1.2.

Definition after_results (penv : PluginEnv) (results : list string) (self : Search)
  : Search :=
  (call_on_result penv results self []).1.2.

(** The search object when post_search is called: as the search left it
    when pre_search let it run, as pre_search left it otherwise. *)
Definition before_post_search (env : SearchEnv) (penv : PluginEnv) (self : Search)
  : Search :=
  match (plugins_call penv pre_search self).1 with
  | Returns true => (search env (after_hook penv pre_search self)).2
  | _ => after_hook penv pre_search self
  end.

(** The engine names of a list of requests. *)
Definition request_names (requests : list RequestTuple) : list string :=
  map (λ r, r.1.1) requests.

(** A processor that takes no part: suspended whatever the container, or
    giving no parameters whatever the query. *)
Definition stands_aside (processor : Processor) : Prop :=
  (∀ rc, (extend_container_if_suspended processor rc).1 = true)
  ∨ (∀ q category, get_params processor q category = None).

(** Hooks that veto every search, and an engine table entry that always
    reports its engine suspended. *)
Definition plugins_veto : PluginEnv :=
  {| plugins_call := λ hook self,
       match hook with
       | pre_search => (Returns false, self)
       | _ => (Returns true, self)
       end;
     get_ordered_results := λ _, Returns ["r1"; "r2"] |}.

Definition processor_suspended : Processor :=
  {| extend_container_if_suspended := λ rc, (true, rc);
     get_params := λ _ _, Some [];
     engine_timeout := 7 |}.

Definition env_suspended : SearchEnv :=
  {| get_bang_url := λ _, PyNone;
     ask := λ _, [];
     PROCESSORS := <["wikipedia" := processor_suspended]>
                     (<["duckduckgo" := processor_suspended]> ∅);
     max_request_timeout := None;
     default_timer := 0;
     workers := λ _ _ _ rc, rc;
     joined := λ _, [] |}.

Definition search_plain : Search := Search_init (query_of None PyNone).

(** A search whose [start_time] is set, as [search] sets it. *)
Definition search_started : Search :=
  {| search_query := query_of None PyNone;
     result_container := ResultContainer_new;
     start_time := Some 0%Q; actual_timeout := None; calls := [] |}.

(** Hooks that let every search run and change nothing. *)
Definition plugins_pass : PluginEnv :=
  {| plugins_call := λ _ self, (Returns true, self);
     get_ordered_results := λ _, Returns ["r1"] |}.

(** Hooks of which the one called on the result 'r2' raises. *)
Definition plugins_failing : PluginEnv :=
  {| plugins_call := λ hook self,
       match hook with
       | on_result "r2" => (Raises (Exc RuntimeError_ 7), self)
       | _ => (Returns true, self)
       end;
     get_ordered_results := λ _, Returns ["r1"; "r2"; "r3"] |}.



Definition no_failure : SSLFailure := λ _ _ _ _ _, None.


Definition search_unknown_engine : Search :=
  Search_init {| query := "rocq";
                 engineref_list := [ {| er_name := "duckduckgo"; er_category := "general" |};
                                     {| er_name := "nosuch"; er_category := "general" |} ];
                 timeout_limit := None;
                 external_bang := PyNone |}.

(** * Properties *)

(** ** Eviction *)

Lemma filter_agree_on {A} (P Q : A → Prop) `{!∀ x, Decision (P x)}
    `{!∀ x, Decision (Q x)} (l : list A) :
  (∀ x, x ∈ l → (P x ↔ Q x)) → filter P l = filter Q l.
Proof.
  induction l as [|x l IH]; intros Hagree; [done|].
  rewrite !filter_cons.
  assert (P x ↔ Q x) as Hx by (apply Hagree; left).
  rewrite IH by (intros y Hy; apply Hagree; by right).
  destruct (decide (P x)), (decide (Q x)); tauto || done.
Qed.

Lemma filter_all {A} (P : A → Prop) `{!∀ x, Decision (P x)} (l : list A) :
  (∀ x, P x) → filter P l = l.
Proof.
  intros HP. induction l as [|x l IH]; [done|].
  by rewrite filter_cons, decide_True, IH.
Qed.

Lemma remove_keeps_other_origins (o : Origin) (c : Conn) (pool : Pool) :
  conn_origin c = o →
  filter (λ c', conn_origin c' ≠ o) (_remove_from_pool c pool)
  = filter (λ c', conn_origin c' ≠ o) pool.
Proof.
  intros Ho. unfold _remove_from_pool.
  apply list_filter_filter_l. intros x Hx ->. by apply Hx.
Qed.

Lemma remove_sublist (c : Conn) (pool : Pool) :
  _remove_from_pool c pool `sublist_of` pool.
Proof. apply sublist_filter. Qed.

(** Whatever happens while closing, connections of other origins stay. *)
Lemma close_each_frame (o : Origin) (cs : list Conn) (pool : Pool) (log : Log) :
  Forall (λ c, conn_origin c = o) cs →
  filter (λ c, conn_origin c ≠ o) (close_each cs pool log).1.2
  = filter (λ c, conn_origin c ≠ o) pool.
Proof.
  intros Hcs. revert pool log.
  induction Hcs as [|c cs Hc _ IH]; intros pool log; [done|].
  cbn [close_each].
  destruct (conn_aclose c) as [e|].
  - destruct (isinstance e NetworkError).
    + rewrite IH. by apply remove_keeps_other_origins.
    + cbn. by apply remove_keeps_other_origins.
  - rewrite IH. by apply remove_keeps_other_origins.
Qed.

Lemma close_each_sublist (cs : list Conn) (pool : Pool) (log : Log) :
  (close_each cs pool log).1.2 `sublist_of` pool.
Proof.
  revert pool log. induction cs as [|c cs IH]; intros pool log; [done|].
  cbn [close_each].
  destruct (conn_aclose c) as [e|]; [destruct (isinstance e NetworkError)|].
  - etrans; [apply IH | apply remove_sublist].
  - apply remove_sublist.
  - etrans; [apply IH | apply remove_sublist].
Qed.

(** With quiet closes the loop runs to its end. *)
Lemma close_each_quiet (cs : list Conn) (pool : Pool) (log : Log) :
  Forall (λ c, closes_quietly c = true) cs →
  close_each cs pool log
  = (Returns tt, filter (λ c, c ∉ cs) pool, log ++ close_warnings cs).
Proof.
  intros Hcs. revert pool log.
  induction Hcs as [|c cs Hc _ IH]; intros pool log.
  - cbn [close_each]. unfold close_warnings; cbn [flat_map].
    rewrite app_nil_r, filter_all; [done|]. intros x. apply not_elem_of_nil.
  - assert (filter (λ x, x ∉ cs) (_remove_from_pool c pool)
            = filter (λ x, x ∉ c :: cs) pool) as Hpool.
    { unfold _remove_from_pool. rewrite list_filter_filter.
      apply list_filter_iff. intros x. rewrite not_elem_of_cons. tauto. }
    cbn [close_each]. unfold closes_quietly in Hc.
    destruct (conn_aclose c) as [e|] eqn:Hclose.
    + rewrite Hc, IH, Hpool. unfold close_warnings; cbn [flat_map].
      fold (close_warnings cs). rewrite Hclose. by rewrite <- app_assoc.
    + rewrite IH, Hpool. unfold close_warnings; cbn [flat_map].
      fold (close_warnings cs). by rewrite Hclose.
Qed.

(** A raise comes from a close, and lies outside httpcore.NetworkError. *)
Lemma close_each_raises (cs : list Conn) (pool : Pool) (log : Log) (e : Exn) :
  (close_each cs pool log).1.1 = Raises e →
  ∃ c, c ∈ cs ∧ conn_aclose c = Some e ∧ isinstance e NetworkError = false.
Proof.
  revert pool log. induction cs as [|c cs IH]; intros pool log; [done|].
  cbn [close_each].
  destruct (conn_aclose c) as [e'|] eqn:Hclose;
    [destruct (isinstance e' NetworkError) eqn:Hnet|].
  - intros (x & ? & ?)%IH. exists x. split; [by right | done].
  - cbn. intros [= ->]. exists c. split; [by left | done].
  - intros (x & ? & ?)%IH. exists x. split; [by right | done].
Qed.

(** The loop reaches its end only when every close was quiet. *)
Lemma close_each_returns (cs : list Conn) (pool : Pool) (log : Log) :
  (close_each cs pool log).1.1 = Returns tt →
  Forall (λ c, closes_quietly c = true) cs.
Proof.
  revert pool log. induction cs as [|c cs IH]; intros pool log; [by constructor|].
  cbn [close_each]. unfold closes_quietly at 1.
  destruct (conn_aclose c) as [e|] eqn:Hclose;
    [destruct (isinstance e NetworkError) eqn:Hnet|].
  - intros Hret%IH. constructor; [by rewrite Hclose | done].
  - done.
  - intros Hret%IH. constructor; [by rewrite Hclose | done].
Qed.

Lemma not_in_own_origin (o : Origin) (pool : Pool) :
  filter (λ c, c ∉ _connections_for_origin o pool) pool
  = filter (λ c, conn_origin c ≠ o) pool.
Proof.
  apply filter_agree_on. intros x Hx. unfold _connections_for_origin.
  rewrite list_elem_of_filter. tauto.
Qed.

Lemma connections_for_origin_origin (o : Origin) (pool : Pool) :
  Forall (λ c, conn_origin c = o) (_connections_for_origin o pool).
Proof.
  apply Forall_forall. intros x. unfold _connections_for_origin.
  rewrite list_elem_of_filter. tauto.
Qed.

(** C7. Evicting an origin never touches the connections of another origin
    and only ever removes connections from the pool; when the closes of the
    evicted origin's connections are quiet (they return, or raise within
    httpcore.NetworkError) the eviction returns and the pool is left with
    exactly the connections of the other origins. *)
Theorem eviction_frame (pool : Pool) (url : URL) (log : Log) :
  let origin := url_to_origin url in
  let pool' := (close_connections_for_url pool url log).1.2 in
  filter (λ c, conn_origin c ≠ origin) pool'
  = filter (λ c, conn_origin c ≠ origin) pool
  ∧ pool' `sublist_of` pool
  ∧ (Forall (λ c, closes_quietly c = true) (_connections_for_origin origin pool) →
     (close_connections_for_url pool url log).1.1 = Returns tt
     ∧ pool' = filter (λ c, conn_origin c ≠ origin) pool).
Proof.
  intros origin pool'. subst origin pool'. unfold close_connections_for_url.
  split; [|split].
  - apply close_each_frame, connections_for_origin_origin.
  - apply close_each_sublist.
  - intros Hquiet. rewrite (close_each_quiet _ _ _ Hquiet). cbn.
    split; [done | apply not_in_own_origin].
Qed.

Lemma eviction_frame_witness :
  Forall (λ c, closes_quietly c = true)
    (_connections_for_origin (url_to_origin url_a) pool_ab)
  ∧ (close_connections_for_url pool_ab url_a []).1.2 = [conn_b1].
Proof.
  assert (Forall (λ c, closes_quietly c = true)
            (_connections_for_origin (url_to_origin url_a) pool_ab)) as Hquiet
    by (vm_compute; repeat constructor).
  split; [exact Hquiet|].
  destruct (eviction_frame pool_ab url_a []) as (_ & _ & Hall).
  destruct (Hall Hquiet) as [_ ->]. vm_compute. reflexivity.
Defined.

(** C7, as first stated, fails: a close that raises outside
    httpcore.NetworkError ends the loop, and the connections of the origin
    not yet visited stay pooled. *)
Lemma eviction_aborted_keeps_connection :
  (close_connections_for_url pool_bad url_a []).1.2 = [conn_b1; conn_a1]
  ∧ conn_origin conn_a1 = url_to_origin url_a
  ∧ (close_connections_for_url pool_bad url_a []).1.2
    ≠ filter (λ c, conn_origin c ≠ url_to_origin url_a) pool_bad.
Proof. vm_compute. repeat split; discriminate. Qed.

(** C8. A close failure within httpcore.NetworkError is logged as a warning
    and the eviction goes on: when every close of the origin's connections is
    quiet the eviction returns, having logged one warning per failed close.
    An eviction returns only in that case; when it raises, what it raises is
    the error of one of those closes, of a class outside
    httpcore.NetworkError. *)
Theorem eviction_raises_only_outside_NetworkError (pool : Pool) (url : URL) (log : Log) :
  let cs := _connections_for_origin (url_to_origin url) pool in
  (Forall (λ c, closes_quietly c = true) cs →
   (close_connections_for_url pool url log).1.1 = Returns tt
   ∧ (close_connections_for_url pool url log).2
     = log ++ [LogDebug "Drop connections for %r"] ++ close_warnings cs)
  ∧ ((close_connections_for_url pool url log).1.1 = Returns tt →
     Forall (λ c, closes_quietly c = true) cs)
  ∧ (∀ e, (close_connections_for_url pool url log).1.1 = Raises e →
       ∃ c, c ∈ cs ∧ conn_aclose c = Some e ∧ isinstance e NetworkError = false).
Proof.
  intros cs. subst cs. unfold close_connections_for_url. split; [|split].
  - intros Hquiet. rewrite (close_each_quiet _ _ _ Hquiet). cbn.
    by rewrite <- app_assoc.
  - apply close_each_returns.
  - intros e. apply close_each_raises.
Qed.

Lemma eviction_raises_only_outside_NetworkError_witness :
  Forall (λ c, closes_quietly c = true)
    (_connections_for_origin (url_to_origin url_a) pool_ab)
  ∧ (close_connections_for_url pool_ab url_a []).1.1 = Returns tt
  ∧ (close_connections_for_url pool_ab url_a []).2
    = [LogDebug "Drop connections for %r";
       LogWarning "Error closing an existing connection" (Exc CloseError 20)].
Proof.
  assert (Forall (λ c, closes_quietly c = true)
            (_connections_for_origin (url_to_origin url_a) pool_ab)) as Hquiet
    by (vm_compute; repeat constructor).
  split; [exact Hquiet|].
  destruct (eviction_raises_only_outside_NetworkError pool_ab url_a []) as [Hret _].
  destruct (Hret Hquiet) as [-> ->]. vm_compute. split; reflexivity.
Defined.

(** C8, as first stated, fails: the handler around [aclose] names
    httpcore.NetworkError only, and any other error leaves the eviction. *)
Lemma eviction_can_raise :
  (close_connections_for_url pool_bad url_a []).1.1 = Raises (Exc RuntimeError_ 40)
  ∧ isinstance (Exc RuntimeError_ 40) NetworkError = false
  ∧ warnings (close_connections_for_url pool_bad url_a []).2 = 0.
Proof. vm_compute. repeat split. Qed.

(** ** Retry policy of the transports *)

Lemma httpcore_errors_not_OSError (e : Exn) :
  isinstance e NetworkError || isinstance e ProtocolError = true →
  isinstance e OSError_ = false.
Proof. unfold isinstance. by destruct (exn_class e). Qed.

Lemma stale_is_httpcore_error (e : Exn) :
  stale_connection_error e = true →
  isinstance e NetworkError || isinstance e ProtocolError = true.
Proof. unfold stale_connection_error, isinstance. by destruct (exn_class e). Qed.

Lemma httpcore_errors_not_socks (e : Exn) :
  isinstance e NetworkError || isinstance e ProtocolError = true →
  isinstance e socks_ProxyConnectionError
  || isinstance e socks_ProxyTimeoutError
  || isinstance e socks_ProxyError = false.
Proof. unfold isinstance. by destruct (exn_class e). Qed.

Lemma evict_calls (req : Request) (st : TState) :
  ts_calls (evict req st).2 = ts_calls st.
Proof.
  unfold evict. by destruct (close_connections_for_url _ _ _) as [[? ?] ?].
Qed.

Lemma evict_quiet (req : Request) (st : TState) :
  Forall (λ c, closes_quietly c = true)
    (_connections_for_origin (url_to_origin (url req)) (ts_pool st)) →
  evict req st
  = (Returns tt,
     {| ts_pool := filter (λ c, conn_origin c ≠ url_to_origin (url req)) (ts_pool st);
        ts_log := ts_log st ++ [LogDebug "Drop connections for %r"]
                  ++ close_warnings
                       (_connections_for_origin (url_to_origin (url req)) (ts_pool st));
        ts_calls := ts_calls st |}).
Proof.
  intros Hquiet. unfold evict, close_connections_for_url.
  rewrite (close_each_quiet _ _ _ Hquiet), not_in_own_origin.
  by rewrite <- app_assoc.
Qed.

Lemma evict_after_raise (super_arequest : Underlying) (req : Request) (st : TState)
    (e : Exn) (pool1 : Pool) :
  super_arequest req (ts_calls st) (ts_pool st) = (Raises e, pool1) →
  Forall (λ c, closes_quietly c = true)
    (_connections_for_origin (url_to_origin (url req)) pool1) →
  call_super super_arequest req st
  = (Raises e, {| ts_pool := pool1; ts_log := ts_log st; ts_calls := S (ts_calls st) |})
  ∧ evict req {| ts_pool := pool1; ts_log := ts_log st; ts_calls := S (ts_calls st) |}
    = (Returns tt, after_eviction req st pool1).
Proof.
  intros Hraise Hquiet. unfold call_super. rewrite Hraise. split; [done|].
  by rewrite evict_quiet.
Qed.

Lemma call_super_calls (super_arequest : Underlying) (req : Request) (st : TState) :
  ts_calls (call_super super_arequest req st).2 = S (ts_calls st).
Proof. unfold call_super. by destruct (super_arequest _ _ _). Qed.

(** The loops call the wrapped transport at least once, when [retry] is not
    zero, and at most [retry] times. *)
Lemma AsyncHTTPTransportFixed_loop_calls (super_arequest : Underlying)
    (req : Request) (retry : nat) (st : TState) :
  (ts_calls st + Nat.min retry 1
   ≤ ts_calls (AsyncHTTPTransportFixed_loop super_arequest req retry st).2
   ≤ ts_calls st + retry)%nat.
Proof.
  revert st. induction retry as [|retry IH]; intros st; cbn [AsyncHTTPTransportFixed_loop].
  - cbn. lia.
  - pose proof (call_super_calls super_arequest req st) as Hcall.
    destruct (call_super super_arequest req st) as [[response|e] st1]; cbn in Hcall.
    + cbn. lia.
    + pose proof (evict_calls req st1) as Hev.
      repeat match goal with
             | |- context [if ?b then _ else _] => destruct b
             end;
        try (cbn; lia);
        destruct (evict req st1) as [[[]|e'] st2]; cbn in Hev |- *; try lia;
        match goal with
        | |- context [AsyncHTTPTransportFixed_loop _ _ _ ?s] =>
            specialize (IH s); cbn in IH; lia
        end.
Qed.

Lemma AsyncProxyTransportFixed_loop_calls (super_arequest : Underlying)
    (req : Request) (retry : nat) (st : TState) :
  (ts_calls st + Nat.min retry 1
   ≤ ts_calls (AsyncProxyTransportFixed_loop super_arequest req retry st).2
   ≤ ts_calls st + retry)%nat.
Proof.
  revert st. induction retry as [|retry IH]; intros st; cbn [AsyncProxyTransportFixed_loop].
  - cbn. lia.
  - pose proof (call_super_calls super_arequest req st) as Hcall.
    destruct (call_super super_arequest req st) as [[response|e] st1]; cbn in Hcall.
    + cbn. lia.
    + pose proof (evict_calls req st1) as Hev.
      repeat match goal with
             | |- context [if ?b then _ else _] => destruct b
             end;
        try (cbn; lia);
        destruct (evict req st1) as [[[]|e'] st2]; cbn in Hev |- *; try lia;
        match goal with
        | |- context [AsyncProxyTransportFixed_loop _ _ _ ?s] =>
            specialize (IH s); cbn in IH; lia
        end.
Qed.

Lemma evictions_after_retry (req : Request) (st : TState) (pool1 : Pool)
    (msg : string) (e : Exn) :
  evictions (ts_log (after_eviction req st pool1) ++ [LogWarning msg e])
  = S (evictions (ts_log st)).
Proof.
  unfold evictions, after_eviction; cbn [ts_log].
  rewrite !List.filter_app, !length_app. cbn.
  assert (List.filter (λ r, negb (is_warning r))
            (close_warnings (_connections_for_origin (url_to_origin (url req)) pool1))
          = []) as ->.
  { induction (_connections_for_origin _ _) as [|c cs IH]; [done|].
    unfold close_warnings; cbn [flat_map]; fold (close_warnings cs).
    rewrite List.filter_app, IH. by destruct (conn_aclose c). }
  cbn. lia.
Qed.

(** C3. The direct transport calls the transport it wraps at most twice.
    When the first call raises and the eviction that follows completes (the
    closes of the origin's connections are quiet): after a stale-connection
    error (httpcore.CloseError or httpcore.RemoteProtocolError) the origin's
    connections are evicted, a warning is logged and the second call is
    made, and if that call answers, its response is returned, after exactly
    one eviction; after any other httpcore.ProtocolError or
    httpcore.NetworkError the origin's connections are evicted and the same
    error is raised again, with no second call. *)
Theorem direct_transport_retry_policy (super_arequest : Underlying)
    (req : Request) (st : TState) :
  (S (ts_calls st)
   ≤ ts_calls (AsyncHTTPTransportFixed_arequest super_arequest req st).2
   ≤ ts_calls st + 2)%nat
  ∧ ∀ e pool1,
      super_arequest req (ts_calls st) (ts_pool st) = (Raises e, pool1) →
      Forall (λ c, closes_quietly c = true)
        (_connections_for_origin (url_to_origin (url req)) pool1) →
      let st1 := after_eviction req st pool1 in
      (stale_connection_error e = true →
       AsyncHTTPTransportFixed_arequest super_arequest req st
       = AsyncHTTPTransportFixed_loop super_arequest req 1
           (log_warning (retry_message e) e st1)
       ∧ ts_calls (AsyncHTTPTransportFixed_arequest super_arequest req st).2
         = S (S (ts_calls st))
       ∧ ∀ response pool2,
           super_arequest req (S (ts_calls st)) (ts_pool st1)
           = (Returns response, pool2) →
           AsyncHTTPTransportFixed_arequest super_arequest req st
           = (Returns (Some response),
              {| ts_pool := pool2;
                 ts_log := ts_log st1 ++ [LogWarning (retry_message e) e];
                 ts_calls := S (S (ts_calls st)) |})
           ∧ evictions (ts_log st1 ++ [LogWarning (retry_message e) e])
             = S (evictions (ts_log st)))
      ∧ (stale_connection_error e = false →
         isinstance e ProtocolError || isinstance e NetworkError = true →
         AsyncHTTPTransportFixed_arequest super_arequest req st = (Raises e, st1)
         ∧ ts_calls st1 = S (ts_calls st)).
Proof.
  split.
  { pose proof (AsyncHTTPTransportFixed_loop_calls super_arequest req 2 st) as H.
    unfold AsyncHTTPTransportFixed_arequest. cbn [Nat.min] in H. lia. }
  intros e pool1 Hraise Hquiet st1.
  destruct (evict_after_raise _ _ _ _ _ Hraise Hquiet) as [Hcall Hevict].
  fold st1 in Hevict.
  assert (AsyncHTTPTransportFixed_arequest super_arequest req st
          = if isinstance e OSError_
            then (Raises (Wrap ConnectError e),
                  {| ts_pool := pool1; ts_log := ts_log st; ts_calls := S (ts_calls st) |})
            else if stale_connection_error e
            then AsyncHTTPTransportFixed_loop super_arequest req 1
                   (log_warning (retry_message e) e st1)
            else if isinstance e ProtocolError || isinstance e NetworkError
            then (Raises e, st1)
            else (Raises e,
                  {| ts_pool := pool1; ts_log := ts_log st; ts_calls := S (ts_calls st) |}))
    as Hstep.
  { unfold AsyncHTTPTransportFixed_arequest.
    cbn [AsyncHTTPTransportFixed_loop]. rewrite Hcall, Hevict.
    unfold stale_connection_error, retry_message.
    destruct (isinstance e OSError_); [done|].
    destruct (isinstance e CloseError); [done|].
    by destruct (isinstance e RemoteProtocolError). }
  split.
  - intros Hstale.
    rewrite Hstep, Hstale,
      (httpcore_errors_not_OSError e (stale_is_httpcore_error e Hstale)).
    split; [done|]. split.
    + pose proof (AsyncHTTPTransportFixed_loop_calls super_arequest req 1
                    (log_warning (retry_message e) e st1)) as H.
      replace (ts_calls (log_warning (retry_message e) e st1))
        with (S (ts_calls st)) in H by done.
      cbn [Nat.min] in H. lia.
    + intros response pool2 Hanswer. split; [|apply evictions_after_retry].
      cbn [AsyncHTTPTransportFixed_loop]. unfold call_super.
      cbn [log_warning ts_calls ts_pool ts_log]. fold st1.
      replace (ts_calls st1) with (S (ts_calls st)) by done.
      by rewrite Hanswer.
  - intros Hstale Hother.
    rewrite Hstep, Hstale, Hother.
    rewrite httpcore_errors_not_OSError; [done|].
    by rewrite orb_comm.
Qed.

Lemma direct_transport_retry_policy_witness :
  raises_once (Exc CloseError 1) request_a 0 pool_ab = (Raises (Exc CloseError 1), pool_ab)
  ∧ Forall (λ c, closes_quietly c = true)
      (_connections_for_origin (url_to_origin (url request_a)) pool_ab)
  ∧ stale_connection_error (Exc CloseError 1) = true
  ∧ AsyncHTTPTransportFixed_arequest (raises_once (Exc CloseError 1)) request_a
      (tstate0 pool_ab)
    = (Returns (Some response_ok),
       {| ts_pool := [conn_b1];
          ts_log := [LogDebug "Drop connections for %r";
                     LogWarning "Error closing an existing connection" (Exc CloseError 20);
                     LogWarning "httpcore.CloseError: retry" (Exc CloseError 1)];
          ts_calls := 2 |}).
Proof.
  assert (Forall (λ c, closes_quietly c = true)
            (_connections_for_origin (url_to_origin (url request_a)) pool_ab)) as Hquiet
    by (vm_compute; repeat constructor).
  split; [reflexivity|]. split; [exact Hquiet|]. split; [reflexivity|].
  destruct (direct_transport_retry_policy (raises_once (Exc CloseError 1))
              request_a (tstate0 pool_ab)) as [_ Hpolicy].
  destruct (Hpolicy (Exc CloseError 1) pool_ab eq_refl Hquiet) as [Hstale _].
  destruct (Hstale eq_refl) as (_ & _ & Hanswer).
  destruct (Hanswer response_ok [conn_b1] eq_refl) as [-> _].
  vm_compute. reflexivity.
Defined.

(** C3, as first stated, fails when the eviction itself raises: the error
    of the close leaves the handler, so that a stale-connection error is
    followed by no second call, and another network error is not the one
    raised again. *)
Lemma eviction_failure_preempts_retry :
  AsyncHTTPTransportFixed_arequest (raises_once (Exc CloseError 1)) request_a
    (tstate0 pool_bad)
  = (Raises (Exc RuntimeError_ 40),
     {| ts_pool := [conn_b1; conn_a1];
        ts_log := [LogDebug "Drop connections for %r"];
        ts_calls := 1 |})
  ∧ (AsyncHTTPTransportFixed_arequest (always_raises (Exc WriteError 2)) request_a
       (tstate0 pool_bad)).1
    = Raises (Exc RuntimeError_ 40).
Proof. vm_compute. split; reflexivity. Qed.

Lemma quiet_pool_quiet_origin (o : Origin) (pool : Pool) :
  Forall (λ c, closes_quietly c = true) pool →
  Forall (λ c, closes_quietly c = true) (_connections_for_origin o pool)
  ∧ Forall (λ c, closes_quietly c = true) (filter (λ c, conn_origin c ≠ o) pool).
Proof.
  rewrite !Forall_forall. unfold _connections_for_origin.
  intros Hpool. split; intros x [_ Hx]%list_elem_of_filter; by apply Hpool.
Qed.

Lemma RemoteProtocolError_not_CloseError (e : Exn) :
  isinstance e RemoteProtocolError = true → isinstance e CloseError = false.
Proof. unfold isinstance. by destruct (exn_class e). Qed.

(** C2. When both calls of the wrapped transport raise an error of the
    class that is tried again, and the evictions complete, the loop ends
    with its budget spent and [arequest], direct or SOCKS, returns None: no
    error reaches the caller, and no response either. *)
Theorem retries_exhausted_returns_None (req : Request) (st : TState) (e : Exn) :
  isinstance e RemoteProtocolError = true →
  Forall (λ c, closes_quietly c = true) (ts_pool st) →
  (AsyncHTTPTransportFixed_arequest (always_raises e) req st).1 = Returns None
  ∧ (AsyncProxyTransportFixed_arequest (always_raises e) req st).1 = Returns None
  ∧ ts_calls (AsyncHTTPTransportFixed_arequest (always_raises e) req st).2
    = S (S (ts_calls st))
  ∧ ts_calls (AsyncProxyTransportFixed_arequest (always_raises e) req st).2
    = S (S (ts_calls st)).
Proof.
  intros Hrpe Hquiet.
  assert (isinstance e NetworkError || isinstance e ProtocolError = true) as Hhc.
  { revert Hrpe. unfold isinstance. by destruct (exn_class e). }
  pose proof (httpcore_errors_not_OSError e Hhc) as Hos.
  pose proof (httpcore_errors_not_socks e Hhc) as Hsocks.
  pose proof (RemoteProtocolError_not_CloseError e Hrpe) as Hclose.
  destruct (quiet_pool_quiet_origin (url_to_origin (url req)) _ Hquiet) as [Hq1 Hq1'].
  destruct (quiet_pool_quiet_origin (url_to_origin (url req)) _ Hq1') as [Hq2 _].
  unfold AsyncHTTPTransportFixed_arequest, AsyncProxyTransportFixed_arequest.
  cbn [AsyncHTTPTransportFixed_loop AsyncProxyTransportFixed_loop].
  unfold call_super, always_raises.
  rewrite Hos, Hsocks, Hclose, Hrpe.
  rewrite evict_quiet by exact Hq1.
  unfold log_warning; cbn [ts_pool ts_log ts_calls].
  rewrite evict_quiet by exact Hq2.
  done.
Qed.

Lemma retries_exhausted_returns_None_witness :
  isinstance (Exc RemoteProtocolError 1) RemoteProtocolError = true
  ∧ Forall (λ c, closes_quietly c = true) (ts_pool (tstate0 pool_ab))
  ∧ (AsyncHTTPTransportFixed_arequest (always_raises (Exc RemoteProtocolError 1))
       request_a (tstate0 pool_ab)).1 = Returns None
  ∧ (AsyncProxyTransportFixed_arequest (always_raises (Exc RemoteProtocolError 1))
       request_a (tstate0 pool_ab)).1 = Returns None.
Proof.
  assert (Forall (λ c, closes_quietly c = true) (ts_pool (tstate0 pool_ab))) as Hquiet
    by (vm_compute; repeat constructor).
  split; [reflexivity|]. split; [exact Hquiet|].
  destruct (retries_exhausted_returns_None request_a (tstate0 pool_ab)
              (Exc RemoteProtocolError 1) eq_refl Hquiet) as (H1 & H2 & _).
  split; assumption.
Defined.

(** ** Errors that are mapped *)

(** The SOCKS transport maps the three python_socks errors to
    httpcore.ProxyError, after one call. *)
Lemma socks_transport_maps_proxy_errors (super_arequest : Underlying)
    (req : Request) (st : TState) (e : Exn) (pool1 : Pool) :
  super_arequest req (ts_calls st) (ts_pool st) = (Raises e, pool1) →
  isinstance e socks_ProxyConnectionError
  || isinstance e socks_ProxyTimeoutError
  || isinstance e socks_ProxyError = true →
  AsyncProxyTransportFixed_arequest super_arequest req st
  = (Raises (Wrap ProxyError e),
     {| ts_pool := pool1; ts_log := ts_log st; ts_calls := S (ts_calls st) |}).
Proof.
  intros Hraise Hsocks. unfold AsyncProxyTransportFixed_arequest.
  cbn [AsyncProxyTransportFixed_loop]. unfold call_super.
  by rewrite Hraise, Hsocks.
Qed.

(** The direct transport maps OSError to httpcore.ConnectError, after one
    call. *)
Lemma direct_transport_maps_OSError (super_arequest : Underlying)
    (req : Request) (st : TState) (e : Exn) (pool1 : Pool) :
  super_arequest req (ts_calls st) (ts_pool st) = (Raises e, pool1) →
  isinstance e OSError_ = true →
  AsyncHTTPTransportFixed_arequest super_arequest req st
  = (Raises (Wrap ConnectError e),
     {| ts_pool := pool1; ts_log := ts_log st; ts_calls := S (ts_calls st) |})
  ∧ isinstance (Wrap ConnectError e) ConnectError = true.
Proof.
  intros Hraise Hos. unfold AsyncHTTPTransportFixed_arequest.
  cbn [AsyncHTTPTransportFixed_loop]. unfold call_super.
  by rewrite Hraise, Hos.
Qed.

(** The direct transport has no handler for httpcore.ProxyError: it leaves
    as it came, after one call and without eviction. *)
Lemma direct_transport_passes_ProxyError (super_arequest : Underlying)
    (req : Request) (st : TState) (e : Exn) (pool1 : Pool) :
  super_arequest req (ts_calls st) (ts_pool st) = (Raises e, pool1) →
  exn_class e = ProxyError →
  AsyncHTTPTransportFixed_arequest super_arequest req st
  = (Raises e,
     {| ts_pool := pool1; ts_log := ts_log st; ts_calls := S (ts_calls st) |}).
Proof.
  intros Hraise Hclass. unfold AsyncHTTPTransportFixed_arequest.
  cbn [AsyncHTTPTransportFixed_loop]. unfold call_super, isinstance.
  by rewrite Hraise, Hclass.
Qed.

(** C4. In the SOCKS transport an OSError that is not one of the
    python_socks errors is raised again, after one call, as the base class
    httpcore.NetworkError: the error raised is not an
    httpcore.ConnectError, which is what the direct transport raises. *)
Theorem socks_transport_OSError_not_ConnectError (super_arequest : Underlying)
    (req : Request) (st : TState) (e : Exn) (pool1 : Pool) :
  super_arequest req (ts_calls st) (ts_pool st) = (Raises e, pool1) →
  isinstance e OSError_ = true →
  isinstance e socks_ProxyConnectionError
  || isinstance e socks_ProxyTimeoutError
  || isinstance e socks_ProxyError = false →
  AsyncProxyTransportFixed_arequest super_arequest req st
  = (Raises (Wrap NetworkError e),
     {| ts_pool := pool1; ts_log := ts_log st; ts_calls := S (ts_calls st) |})
  ∧ isinstance (Wrap NetworkError e) ConnectError = false.
Proof.
  intros Hraise Hos Hsocks. unfold AsyncProxyTransportFixed_arequest.
  cbn [AsyncProxyTransportFixed_loop]. unfold call_super.
  by rewrite Hraise, Hsocks, Hos.
Qed.

Lemma socks_transport_OSError_not_ConnectError_witness :
  isinstance (Exc gaierror 5) OSError_ = true
  ∧ AsyncProxyTransportFixed_arequest (always_raises (Exc gaierror 5)) request_a
      (tstate0 pool_ab)
    = (Raises (Wrap NetworkError (Exc gaierror 5)),
       {| ts_pool := pool_ab; ts_log := []; ts_calls := 1 |})
  ∧ isinstance (Wrap NetworkError (Exc gaierror 5)) ConnectError = false.
Proof.
  split; [reflexivity|].
  exact (socks_transport_OSError_not_ConnectError
           (always_raises (Exc gaierror 5)) request_a (tstate0 pool_ab)
           (Exc gaierror 5) pool_ab eq_refl eq_refl eq_refl).
Defined.

(** ** SSL context cache *)

Lemma get_sslcontexts_keeps (key k : SSLKey) (c : SSLContext) (s : SSLState) :
  SSLCONTEXTS s !! k = Some c →
  SSLCONTEXTS (get_sslcontexts_key key s).2 !! k = Some c.
Proof.
  destruct key as [[[[proxy_url cert] verify] trust_env] http2].
  intros Hk. unfold get_sslcontexts_key, get_sslcontexts.
  destruct (SSLCONTEXTS s !! (proxy_url, cert, verify, trust_env, http2))
    as [ctx|] eqn:Hkey; cbn [fst snd SSLCONTEXTS]; [done|].
  rewrite lookup_insert_ne; [done|]. intros <-. congruence.
Qed.

Lemma get_sslcontexts_all_keeps (keys : list SSLKey) (k : SSLKey)
    (c : SSLContext) (s : SSLState) :
  SSLCONTEXTS s !! k = Some c →
  SSLCONTEXTS (get_sslcontexts_all keys s) !! k = Some c.
Proof.
  revert s. induction keys as [|key keys IH]; intros s Hk; [done|].
  cbn [get_sslcontexts_all]. by apply IH, get_sslcontexts_keeps.
Qed.

Lemma get_sslcontexts_caches (key : SSLKey) (s : SSLState) :
  SSLCONTEXTS (get_sslcontexts_key key s).2 !! key
  = Some (get_sslcontexts_key key s).1.
Proof.
  destruct key as [[[[proxy_url cert] verify] trust_env] http2].
  unfold get_sslcontexts_key, get_sslcontexts.
  destruct (SSLCONTEXTS s !! (proxy_url, cert, verify, trust_env, http2))
    as [ctx|] eqn:Hkey; cbn [fst snd SSLCONTEXTS]; [done|].
  by rewrite lookup_insert_eq.
Qed.

Lemma get_sslcontexts_hit (key : SSLKey) (c : SSLContext) (s : SSLState) :
  SSLCONTEXTS s !! key = Some c → get_sslcontexts_key key s = (c, s).
Proof.
  destruct key as [[[[proxy_url cert] verify] trust_env] http2].
  intros Hkey. unfold get_sslcontexts_key, get_sslcontexts. by rewrite Hkey.
Qed.





(** With a constructor that never raises, the call is the one of
    [get_sslcontexts]. *)
Lemma get_sslcontexts_checked_no_failure (proxy_url cert : option string)
    (verify : bool + string) (trust_env http2 : bool) (r : SSLRun) :
  (get_sslcontexts_checked no_failure proxy_url cert verify trust_env http2 r).1
  = Returns (get_sslcontexts proxy_url cert verify trust_env http2 (run_state r)).1
  ∧ run_state
      (get_sslcontexts_checked no_failure proxy_url cert verify trust_env http2 r).2
    = (get_sslcontexts proxy_url cert verify trust_env http2 (run_state r)).2.
Proof.
  unfold get_sslcontexts_checked, get_sslcontexts, no_failure.
  by destruct (SSLCONTEXTS (run_state r) !! (proxy_url, cert, verify, trust_env, http2)).
Qed.




(** ** Client factory *)

Lemma blocked_not_unblocked (p pattern : string) :
  http_pattern_blocked false p = true →
  http_pattern_blocked false pattern = false → pattern ≠ p.
Proof. intros Hp Hpattern ->. congruence. Qed.

(** With plaintext HTTP disabled, the loop leaves blocked patterns alone. *)
Lemma mount_proxies_blocked (env : ClientEnv) (verify : Verify) (enable_http2 : bool)
    (local_address : option string) (limit : Limits) (retries : nat)
    (items : list (string * string)) (mounts mounts' : gmap string Transport)
    (s s' : SSLState) (p : string) :
  mount_proxies env false verify enable_http2 local_address limit retries items mounts s
  = (Returns mounts', s') →
  http_pattern_blocked false p = true →
  mounts' !! p = mounts !! p.
Proof.
  intros Hrun Hp. revert mounts s Hrun.
  induction items as [|[pattern proxy_url] items IH]; intros mounts s Hrun.
  - cbn in Hrun. by injection Hrun as <- <-.
  - cbn [mount_proxies] in Hrun.
    destruct (http_pattern_blocked false pattern) eqn:Hpattern; [by eapply IH|].
    destruct (if _ : bool then _ else _) as [[t|e] s1]; [|done].
    rewrite (IH _ _ Hrun). apply lookup_insert_ne.
    by apply blocked_not_unblocked.
Qed.

(** Blocked entries might as well not be in the mapping. *)
Lemma mount_proxies_skips (env : ClientEnv) (verify : Verify) (enable_http2 : bool)
    (local_address : option string) (limit : Limits) (retries : nat)
    (items : list (string * string)) (mounts : gmap string Transport) (s : SSLState) :
  mount_proxies env false verify enable_http2 local_address limit retries items mounts s
  = mount_proxies env false verify enable_http2 local_address limit retries
      (filter (λ it, http_pattern_blocked false it.1 = false) items) mounts s.
Proof.
  revert mounts s.
  induction items as [|[pattern proxy_url] items IH]; intros mounts s; [done|].
  rewrite filter_cons. cbn [fst]. cbn [mount_proxies].
  destruct (http_pattern_blocked false pattern) eqn:Hpattern.
  - rewrite decide_False by done. apply IH.
  - rewrite decide_True by done. cbn [mount_proxies]. rewrite Hpattern.
    destruct (if _ : bool then _ else _) as [[t|e] s1]; [apply IH | done].
Qed.

(** C9. When [new_client] builds a client with plaintext HTTP disabled, the
    pattern 'http://' is mounted to the transport whose [arequest] raises
    httpcore.UnsupportedProtocol whatever the request; no other pattern that
    is 'http' or starts with 'http://' is mounted; and the entries of the
    proxy mapping with such patterns play no part in the outcome. *)
Theorem new_client_blocks_http (env : ClientEnv) (verify : Verify)
    (enable_http2 : bool) (max_conn max_keepalive : option nat) (expiry : option Q)
    (proxies : Proxies) (local_address : option string)
    (retries max_redirects : nat) (s s' : SSLState) (client : Client) :
  new_client env false verify enable_http2 max_conn max_keepalive expiry proxies
    local_address retries max_redirects s = (Returns client, s') →
  client_mounts client !! "http://" = Some AsyncHTTPTransportNoHttp
  ∧ (∀ super_arequest req st,
       Transport_arequest AsyncHTTPTransportNoHttp super_arequest req st
       = (Raises (New UnsupportedProtocol "HTTP protocol is disabled"), st))
  ∧ (∀ pattern,
       pattern = "http" ∨ startswith pattern "http://" = true →
       pattern ≠ "http://" →
       client_mounts client !! pattern = None)
  ∧ new_client env false verify enable_http2 max_conn max_keepalive expiry
      (ProxiesDict (filter (λ it, http_pattern_blocked false it.1 = false)
                      (iter_proxies proxies)))
      local_address retries max_redirects s = (Returns client, s').
Proof.
  intros Hrun. split; [|split; [done|split]].
  - unfold new_client in Hrun.
    destruct (mount_proxies _ _ _ _ _ _ _ _ _ _) as [[mounts|e] s1]; [|done].
    destruct (get_transport _ _ _ _ _ _ _ _) as [[transport|e] s2]; [|done].
    injection Hrun as <- <-. cbn. apply lookup_insert_eq.
  - intros pattern Hpattern Hne. unfold new_client in Hrun.
    destruct (mount_proxies _ _ _ _ _ _ _ _ _ _) as [[mounts|e] s1] eqn:Hmounts; [|done].
    destruct (get_transport _ _ _ _ _ _ _ _) as [[transport|e] s2]; [|done].
    injection Hrun as <- <-. cbn.
    rewrite lookup_insert_ne by done.
    rewrite (mount_proxies_blocked _ _ _ _ _ _ _ _ _ _ _ pattern Hmounts).
    + apply lookup_empty.
    + unfold http_pattern_blocked. cbn [negb andb].
      destruct Hpattern as [-> | ->]; [done | apply orb_true_r].
  - rewrite <- Hrun. unfold new_client. cbn [iter_proxies].
    by rewrite <- mount_proxies_skips.
Qed.

Lemma new_client_blocks_http_witness :
  ∃ client s',
    new_client client_env false (VerifyBool true) true (Some 100) (Some 10) None
      proxies_mixed None 0 30 ssl_state0 = (Returns client, s')
    ∧ client_mounts client !! "http://" = Some AsyncHTTPTransportNoHttp
    ∧ client_mounts client !! "http://proxied.example" = None.
Proof.
  destruct (new_client client_env false (VerifyBool true) true (Some 100) (Some 10)
              None proxies_mixed None 0 30 ssl_state0) as [[client|e] s'] eqn:Hrun.
  - exists client, s'. split; [reflexivity|].
    destruct (new_client_blocks_http _ _ _ _ _ _ _ _ _ _ _ _ _ Hrun)
      as (Hmount & _ & Hskip & _).
    split; [exact Hmount|]. apply Hskip; [right; reflexivity | discriminate].
  - assert (returned
              (new_client client_env false (VerifyBool true) true (Some 100)
                 (Some 10) None proxies_mixed None 0 30 ssl_state0).1 = true) as Hret
      by reflexivity.
    rewrite Hrun in Hret. discriminate Hret.
Defined.

(** ** Timeout budget *)

Lemma py_lt_iff (a b : Q) : py_lt a b = true ↔ (a < b)%Q.
Proof.
  unfold py_lt. rewrite negb_true_iff, <- not_true_iff_false, Qle_bool_iff.
  split; [apply Qnot_le_lt | apply Qlt_not_le].
Qed.

(** The builtins agree with the minimum and maximum of the rationals, also
    on which argument they return when the two are equal. *)
Lemma py_min_Qmin (a b : Q) : py_min a b = Qmin a b.
Proof.
  unfold py_min, Qmin, GenericMinMax.gmin.
  destruct (py_lt b a) eqn:Hlt.
  - apply py_lt_iff in Hlt.
    destruct (Qcompare_spec a b) as [Heq|Hab|Hba]; [| |done].
    + rewrite Heq in Hlt. by apply Qlt_irrefl in Hlt.
    + exfalso. apply (Qlt_irrefl a). by etrans.
  - destruct (Qcompare_spec a b) as [Heq|Hab|Hba]; [done|done|].
    apply py_lt_iff in Hba. congruence.
Qed.

Lemma py_max_Qmax (a b : Q) : py_max a b = Qmax a b.
Proof.
  unfold py_max, Qmax, GenericMinMax.gmax.
  destruct (py_lt a b) eqn:Hlt.
  - apply py_lt_iff in Hlt.
    destruct (Qcompare_spec a b) as [Heq|Hab|Hba]; [|done|].
    + rewrite Heq in Hlt. by apply Qlt_irrefl in Hlt.
    + exfalso. apply (Qlt_irrefl a). by etrans.
  - destruct (Qcompare_spec a b) as [Heq|Hab|Hba]; [done| |done].
    apply py_lt_iff in Hab. congruence.
Qed.

(** The loop of [_get_requests] touches the container and the calls only,
    and the calls it adds are counter increments. *)
Lemma _get_requests_loop_frame (env : SearchEnv) (engineref_list : list EngineRef)
    (requests : list RequestTuple) (default_timeout : Q) (self : Search) :
  let self' := (_get_requests_loop env engineref_list requests default_timeout self).2 in
  search_query self' = search_query self
  ∧ start_time self' = start_time self
  ∧ actual_timeout self' = actual_timeout self
  ∧ ∃ extra, calls self' = calls self ++ extra
             ∧ Forall (λ c, ∃ n, c = call_counter_inc n) extra.
Proof.
  revert requests default_timeout self.
  induction engineref_list as [|engineref rest IH]; intros requests default_timeout self.
  - cbn. repeat split. exists []. by rewrite app_nil_r.
  - cbn [_get_requests_loop].
    destruct (PROCESSORS env !! er_name engineref) as [processor|].
    2:{ cbn. repeat split. exists []. by rewrite app_nil_r. }
    destruct (extend_container_if_suspended processor (result_container self))
      as [suspended rc].
    destruct suspended; [|destruct (get_params processor _ _) as [request_params|]];
      match goal with
      | |- context [_get_requests_loop env rest ?r ?d ?s] =>
          destruct (IH r d s) as (Hq & Hs & Ha & extra & Hcalls & Hextra)
      end;
      cbv zeta; rewrite Hq, Hs, Ha, Hcalls; repeat split.
    + by exists extra.
    + exists (call_counter_inc (er_name engineref) :: extra). cbn [with_call calls].
      rewrite <- app_assoc. split; [done|]. constructor; [by eexists | done].
    + by exists extra.
Qed.

(** The default timeout is the largest timeout of the engines whose
    requests were added, or the value the loop started from. *)
Lemma _get_requests_loop_default_timeout (env : SearchEnv)
    (engineref_list : list EngineRef) (requests : list RequestTuple)
    (default_timeout : Q) (self : Search) (requests' : list RequestTuple)
    (default_timeout' : Q) (self' : Search) :
  _get_requests_loop env engineref_list requests default_timeout self
  = (Returns (requests', default_timeout'), self') →
  ∃ added, requests' = requests ++ added
    ∧ (default_timeout <= default_timeout')%Q
    ∧ Forall (λ r, ∃ processor, PROCESSORS env !! r.1.1 = Some processor
                     ∧ (engine_timeout processor <= default_timeout')%Q) added
    ∧ (default_timeout' = default_timeout
       ∨ ∃ r processor, r ∈ added ∧ PROCESSORS env !! r.1.1 = Some processor
                        ∧ default_timeout' = engine_timeout processor).
Proof.
  revert requests default_timeout self.
  induction engineref_list as [|engineref rest IH]; intros requests default_timeout self.
  - cbn. intros [= <- <- <-]. exists []. rewrite app_nil_r.
    split; [done|]. split; [apply Qle_refl|]. split; [constructor | by left].
  - cbn [_get_requests_loop].
    destruct (PROCESSORS env !! er_name engineref) as [processor|] eqn:Hproc; [|done].
    destruct (extend_container_if_suspended processor (result_container self))
      as [suspended rc].
    destruct suspended; [apply IH|].
    destruct (get_params processor _ _) as [request_params|]; [|apply IH].
    cbv zeta. intros (added & -> & Hle & Hall & Hmax)%IH.
    exists ((er_name engineref, query (search_query (with_container rc self)),
             request_params) :: added).
    rewrite <- app_assoc. split; [done|].
    assert (default_timeout <= py_max default_timeout (engine_timeout processor)
            ∧ engine_timeout processor
              <= py_max default_timeout (engine_timeout processor))%Q as [Hl Hr].
    { rewrite py_max_Qmax. split; [apply Q.le_max_l | apply Q.le_max_r]. }
    split; [by eapply Qle_trans|]. split.
    + constructor; [|done]. exists processor. split; [done | by eapply Qle_trans].
    + destruct Hmax as [-> | (r & p & Hr' & Hp & ->)].
      * unfold py_max. destruct (py_lt _ _); [|by left].
        right. exists (er_name engineref,
                 query (search_query (with_container rc self)), request_params),
                 processor.
        split; [by left | done].
      * right. exists r, p. split; [by right | done].
Qed.

(** C1. When the loop over the query's engines ends with default timeout D,
    [_get_requests] returns the requests of the loop and an actual timeout
    that is: D with neither a query limit nor a ceiling; min(D, M) with the
    ceiling M only; min(D, Q) with the query limit Q only; min(Q, M) with
    both. *)
Theorem actual_timeout_precedence (env : SearchEnv) (self self' : Search)
    (requests : list RequestTuple) (D : Q) :
  _get_requests_loop env (engineref_list (search_query self)) [] 0 self
  = (Returns (requests, D), self') →
  ∃ actual_timeout,
    _get_requests env self = (Returns (requests, actual_timeout), self')
    ∧ match timeout_limit (search_query self), max_request_timeout env with
      | None, None => actual_timeout = D
      | None, Some M => actual_timeout = Qmin D M
      | Some Q, None => actual_timeout = Qmin D Q
      | Some Q, Some M => actual_timeout = Qmin Q M
      end.
Proof.
  intros Hloop.
  pose proof (_get_requests_loop_frame env (engineref_list (search_query self))
                [] 0 self) as [Hq _].
  rewrite Hloop in Hq. cbn [snd] in Hq.
  unfold _get_requests. rewrite Hloop, Hq.
  destruct (timeout_limit (search_query self)) as [Q|],
           (max_request_timeout env) as [M|];
    eexists; (split; [reflexivity|]); by rewrite <- ?py_min_Qmin.
Qed.

Lemma actual_timeout_precedence_witness :
  _get_requests_loop env_ceiling (engineref_list (search_query search_limited))
    [] 0 search_limited
  = (Returns (requests_both, 10%Q), search_limited_after)
  ∧ _get_requests env_ceiling search_limited
    = (Returns (requests_both, 3%Q), search_limited_after).
Proof.
  assert (_get_requests_loop env_ceiling
            (engineref_list (search_query search_limited)) [] 0 search_limited
          = (Returns (requests_both, 10%Q), search_limited_after)) as Hloop
    by reflexivity.
  split; [exact Hloop|].
  destruct (actual_timeout_precedence env_ceiling search_limited
              search_limited_after requests_both 10%Q Hloop) as (t & -> & Ht).
  cbn in Ht. rewrite Ht. reflexivity.
Defined.

(** The four rows of the table, at D = 10. *)
Example actual_timeout_rows :
  (_get_requests (search_env PyNone [] None) (Search_init (query_of None PyNone))).1
  = Returns (requests_both, 10%Q)
  ∧ (_get_requests (search_env PyNone [] None) (Search_init (query_of (Some 5%Q) PyNone))).1
    = Returns (requests_both, 5%Q)
  ∧ (_get_requests (search_env PyNone [] (Some 7%Q)) (Search_init (query_of None PyNone))).1
    = Returns (requests_both, 7%Q)
  ∧ (_get_requests (search_env PyNone [] (Some 3%Q)) (Search_init (query_of (Some 5%Q) PyNone))).1
    = Returns (requests_both, 3%Q).
Proof. repeat split. Qed.

(** ** Bang, answerers, engines *)

Lemma start_threads_frame (env : SearchEnv) (requests started : list RequestTuple)
    (self : Search) :
  ∃ added,
    (start_threads env requests started self).1.2 = started ++ added
    ∧ calls (start_threads env requests started self).2
      = calls self ++ map (λ r, call_thread_start (r.1.1)) added
    ∧ search_query (start_threads env requests started self).2 = search_query self
    ∧ result_container (start_threads env requests started self).2
      = result_container self
    ∧ start_time (start_threads env requests started self).2 = start_time self
    ∧ actual_timeout (start_threads env requests started self).2
      = actual_timeout self.
Proof.
  revert started self. induction requests as [|r requests IH]; intros started self.
  { exists []. cbn. by rewrite !app_nil_r. }
  cbn [start_threads]. destruct (PROCESSORS env !! r.1.1) as [processor|].
  - destruct (IH (started ++ [r]) (with_call (call_thread_start (r.1.1)) self))
      as (added & -> & -> & -> & -> & -> & ->).
    exists (r :: added). cbn [with_call calls search_query result_container
                               start_time actual_timeout map].
    by rewrite <- !app_assoc.
  - exists []. cbn. by rewrite !app_nil_r.
Qed.

(** When every request names an engine of PROCESSORS, every thread is
    started. *)
Lemma start_threads_known (env : SearchEnv) (requests started : list RequestTuple)
    (self : Search) :
  Forall (λ r, is_Some (PROCESSORS env !! r.1.1)) requests →
  start_threads env requests started self
  = (Returns tt, started ++ requests,
     {| search_query := search_query self;
        result_container := result_container self;
        start_time := start_time self;
        actual_timeout := actual_timeout self;
        calls := calls self ++ map (λ r, call_thread_start (r.1.1)) requests |}).
Proof.
  intros Hknown. revert started self.
  induction Hknown as [|r requests [processor Hr] _ IH]; intros started self.
  { cbn. rewrite !app_nil_r. by destruct self. }
  cbn [start_threads]. rewrite Hr, IH.
  cbn [with_call calls search_query result_container start_time actual_timeout map].
  by rewrite <- !app_assoc.
Qed.

(** Whether it returns or raises, [search_multiple_requests] has made no
    call but thread starts, and has left the slots other than the container
    as they were. *)
Lemma search_multiple_requests_frame (env : SearchEnv) (requests : list RequestTuple)
    (self : Search) :
  ∃ added : list RequestTuple,
    calls (search_multiple_requests env requests self).2
    = calls self ++ map (λ r, call_thread_start (r.1.1)) added
    ∧ search_query (search_multiple_requests env requests self).2 = search_query self
    ∧ start_time (search_multiple_requests env requests self).2 = start_time self
    ∧ actual_timeout (search_multiple_requests env requests self).2
      = actual_timeout self.
Proof.
  unfold search_multiple_requests.
  destruct (start_threads_frame env requests [] self)
    as (added & _ & Hcalls & Hq & _ & Hs & Ha).
  exists added.
  destruct (start_threads env requests [] self) as [[outcome started] self1].
  cbn [snd] in Hcalls, Hq, Hs, Ha. rewrite <- Hcalls, <- Hq, <- Hs, <- Ha.
  destruct outcome as [[]|e]; [|done].
  destruct (joined env requests) as [|th threads]; [done|].
  cbn [with_container start_time actual_timeout].
  by destruct (start_time self1) eqn:Hstart, (actual_timeout self1) eqn:Htimeout.
Qed.

Lemma search_standard_calls (env : SearchEnv) (self : Search) :
  ∃ rest, calls (search_standard env self).2
          = calls self ++ call_search_standard :: rest.
Proof.
  unfold search_standard, _get_requests.
  pose proof (_get_requests_loop_frame env
                (engineref_list (search_query (with_call call_search_standard self)))
                [] 0 (with_call call_search_standard self))
    as (_ & _ & _ & extra & Hcalls & _).
  destruct (_get_requests_loop _ _ _ _ _) as [[[requests default_timeout]|e] self1].
  - cbn [snd] in Hcalls. cbn [with_call calls] in Hcalls.
    destruct requests as [|r requests].
    + cbn. exists extra. by rewrite Hcalls, <- app_assoc.
    + match goal with
      | |- context [search_multiple_requests env ?rs ?s] =>
          destruct (search_multiple_requests_frame env rs s)
            as (added & Hstarted & _);
          destruct (search_multiple_requests env rs s) as [[[]|e] self2]
      end; cbn [snd calls] in Hstarted |- *;
        rewrite Hstarted, Hcalls, <- !app_assoc; by eexists.
  - cbn [snd] in Hcalls |- *. cbn [with_call calls] in Hcalls.
    exists extra. by rewrite Hcalls, <- app_assoc.
Qed.

(** C6. When [search_external_bang] returns True, [get_bang_url] has
    returned a string, the external bang being truthy; [search] stores that
    string in [redirect_url], sets [start_time] and returns the container
    at once, having made no call at all: no answerer check, no standard
    search, no thread started.  The string is the one [get_bang_url]
    returned, whatever it is. *)
Theorem bang_match_short_circuits (env : SearchEnv) (self : Search) :
  (search_external_bang env self).1 = true →
  ∃ s, get_bang_url env (search_query self) = PyStr s
    ∧ truthy (external_bang (search_query self)) = true
    ∧ search env self
      = (Returns (set_redirect_url (PyStr s) (result_container self)),
         {| search_query := search_query self;
            result_container := set_redirect_url (PyStr s) (result_container self);
            start_time := Some (default_timer env);
            actual_timeout := actual_timeout self;
            calls := calls self |}).
Proof.
  unfold search, search_external_bang.
  cbn [search_query result_container with_container set_redirect_url redirect_url].
  destruct (truthy (external_bang (search_query self))); [|done].
  destruct (get_bang_url env (search_query self)) as [|s|z] eqn:Hurl; try done.
  intros _. by exists s.
Qed.

Lemma bang_match_short_circuits_witness :
  (search_external_bang env_bang search_banged).1 = true
  ∧ redirect_url (result_container (search env_bang search_banged).2)
    = PyStr "https://example.org/?q=rocq"
  ∧ calls (search env_bang search_banged).2 = [].
Proof.
  split; [reflexivity|].
  destruct (bang_match_short_circuits env_bang search_banged eq_refl)
    as (s & Hurl & _ & ->).
  injection Hurl as <-. split; reflexivity.
Defined.

(** C6, as first stated, fails: the test made on what [get_bang_url]
    returns is [isinstance(..., str)], which the empty string passes. *)
Lemma bang_match_with_empty_url :
  (search_external_bang env_bang_empty search_banged).1 = true
  ∧ (search env_bang_empty search_banged).1
    = Returns (set_redirect_url (PyStr "") ResultContainer_new)
  ∧ redirect_url (result_container (search env_bang_empty search_banged).2)
    = PyStr "".
Proof. repeat split. Qed.

(** C10. When [external_bang] is truthy and [get_bang_url] returns a value
    that is not a string, [search_external_bang] stores that value in
    [redirect_url] and returns False, and [search] goes on to the answerer
    check; the standard search follows when, and only when, the answerers
    give no result. *)
Theorem bang_without_url_falls_through (env : SearchEnv) (self : Search) :
  truthy (external_bang (search_query self)) = true →
  is_str (get_bang_url env (search_query self)) = false →
  search_external_bang env self
  = (false, with_container
              (set_redirect_url (get_bang_url env (search_query self))
                 (result_container self)) self)
  ∧ (ask env (search_query self) = [] →
     ∃ rest, calls (search env self).2
             = calls self ++ call_search_answerers :: call_search_standard :: rest)
  ∧ (ask env (search_query self) ≠ [] →
     calls (search env self).2 = calls self ++ [call_search_answerers]).
Proof.
  intros Hbang Hurl.
  assert (∀ self0, search_query self0 = search_query self →
            search_external_bang env self0
            = (false, with_container
                        (set_redirect_url (get_bang_url env (search_query self))
                           (result_container self0)) self0)) as Hfalse.
  { intros self0 Hq. unfold search_external_bang. rewrite Hq, Hbang.
    cbn [with_container result_container search_query set_redirect_url redirect_url].
    by rewrite Hurl. }
  split; [by apply Hfalse|].
  unfold search. rewrite Hfalse by done. cbn [negb].
  unfold search_answerers.
  cbn [with_call with_container search_query result_container calls].
  split.
  - intros ->.
    match goal with
    | |- context [search_standard env ?s] =>
        destruct (search_standard_calls env s) as [rest Hcalls];
        destruct (search_standard env s) as [[b|e] self2]
    end; cbn [snd calls negb with_call with_container] in Hcalls |- *;
      exists rest; by rewrite Hcalls, <- app_assoc.
  - intros Hans. by destruct (ask env (search_query self)).
Qed.

Lemma bang_without_url_falls_through_witness :
  truthy (external_bang (search_query search_banged)) = true
  ∧ is_str (get_bang_url env_plain (search_query search_banged)) = false
  ∧ (search_external_bang env_plain search_banged).1 = false
  ∧ calls (search env_plain search_banged).2
    = [call_search_answerers; call_search_standard;
       call_counter_inc "duckduckgo"; call_counter_inc "wikipedia";
       call_thread_start "duckduckgo"; call_thread_start "wikipedia"].
Proof.
  split; [reflexivity|]. split; [reflexivity|].
  destruct (bang_without_url_falls_through env_plain search_banged eq_refl eq_refl)
    as (-> & _ & _).
  split; reflexivity.
Defined.

(** C10, as first stated, fails: with an answer at hand the standard search
    is not reached. *)
Lemma answered_before_standard_search :
  truthy (external_bang (search_query search_banged)) = true
  ∧ is_str (get_bang_url env_answer (search_query search_banged)) = false
  ∧ calls (search env_answer search_banged).2 = [call_search_answerers]
  ∧ call_search_standard ∉ calls (search env_answer search_banged).2.
Proof.
  repeat split. cbn. intros Hin.
  apply list_elem_of_singleton in Hin. discriminate.
Qed.

(** ** More on the transports *)

Lemma unhandled_tests (e : Exn) :
  unhandled e = true →
  isinstance e OSError_ = false
  ∧ isinstance e socks_ProxyConnectionError
    || isinstance e socks_ProxyTimeoutError
    || isinstance e socks_ProxyError = false
  ∧ isinstance e CloseError = false
  ∧ isinstance e RemoteProtocolError = false
  ∧ isinstance e ProtocolError || isinstance e NetworkError = false
  ∧ isinstance e NetworkError || isinstance e ProtocolError = false.
Proof. unfold unhandled, isinstance. by destruct (exn_class e). Qed.

(** X1. In the SOCKS transport httpcore.CloseError is not tried again, as
    it is in the direct transport: after the first call raises it and the
    eviction completes, the same error is raised, with no second call. *)
Theorem socks_transport_CloseError_not_retried (super_arequest : Underlying)
    (req : Request) (st : TState) (e : Exn) (pool1 : Pool) :
  super_arequest req (ts_calls st) (ts_pool st) = (Raises e, pool1) →
  isinstance e CloseError = true →
  Forall (λ c, closes_quietly c = true)
    (_connections_for_origin (url_to_origin (url req)) pool1) →
  AsyncProxyTransportFixed_arequest super_arequest req st
  = (Raises e, after_eviction req st pool1)
  ∧ ts_calls (after_eviction req st pool1) = S (ts_calls st).
Proof.
  intros Hraise Hclose Hquiet.
  destruct (evict_after_raise _ _ _ _ _ Hraise Hquiet) as [Hcall Hevict].
  assert (isinstance e NetworkError || isinstance e ProtocolError = true) as Hhc.
  { revert Hclose. unfold isinstance. by destruct (exn_class e). }
  assert (isinstance e RemoteProtocolError = false) as Hrpe.
  { revert Hclose. unfold isinstance. by destruct (exn_class e). }
  unfold AsyncProxyTransportFixed_arequest. cbn [AsyncProxyTransportFixed_loop].
  rewrite Hcall, (httpcore_errors_not_socks e Hhc),
    (httpcore_errors_not_OSError e Hhc), Hrpe, Hhc, Hevict.
  done.
Qed.

Lemma socks_transport_CloseError_not_retried_witness :
  AsyncProxyTransportFixed_arequest (raises_once (Exc CloseError 1)) request_a
    (tstate0 pool_ab)
  = (Raises (Exc CloseError 1),
     {| ts_pool := [conn_b1];
        ts_log := [LogDebug "Drop connections for %r";
                   LogWarning "Error closing an existing connection" (Exc CloseError 20)];
        ts_calls := 1 |}).
Proof.
  assert (Forall (λ c, closes_quietly c = true)
            (_connections_for_origin (url_to_origin (url request_a)) pool_ab)) as Hquiet
    by (vm_compute; repeat constructor).
  destruct (socks_transport_CloseError_not_retried (raises_once (Exc CloseError 1))
              request_a (tstate0 pool_ab) (Exc CloseError 1) pool_ab
              eq_refl eq_refl Hquiet) as [-> _].
  vm_compute. reflexivity.
Defined.

(** X2. An error for which the transports have no handler (a timeout, say)
    leaves [arequest] as it came, after one call: the pool is as the wrapped
    transport left it and nothing is logged, so no connection is evicted. *)
Theorem unhandled_errors_pass_through (super_arequest : Underlying)
    (req : Request) (st : TState) (e : Exn) (pool1 : Pool) :
  super_arequest req (ts_calls st) (ts_pool st) = (Raises e, pool1) →
  unhandled e = true →
  let st1 := {| ts_pool := pool1; ts_log := ts_log st; ts_calls := S (ts_calls st) |} in
  AsyncHTTPTransportFixed_arequest super_arequest req st = (Raises e, st1)
  ∧ AsyncProxyTransportFixed_arequest super_arequest req st = (Raises e, st1).
Proof.
  intros Hraise (Hos & Hsocks & Hclose & Hrpe & Hpn & Hnp)%unhandled_tests st1.
  unfold AsyncHTTPTransportFixed_arequest, AsyncProxyTransportFixed_arequest.
  cbn [AsyncHTTPTransportFixed_loop AsyncProxyTransportFixed_loop].
  unfold call_super. by rewrite Hraise, Hos, Hsocks, Hclose, Hrpe, Hpn, Hnp.
Qed.

Lemma unhandled_errors_pass_through_witness :
  unhandled (Exc ReadTimeout 9) = true
  ∧ AsyncHTTPTransportFixed_arequest (always_raises (Exc ReadTimeout 9)) request_a
      (tstate0 pool_ab)
    = (Raises (Exc ReadTimeout 9),
       {| ts_pool := pool_ab; ts_log := []; ts_calls := 1 |}).
Proof.
  split; [reflexivity|].
  exact (proj1 (unhandled_errors_pass_through (always_raises (Exc ReadTimeout 9))
                  request_a (tstate0 pool_ab) (Exc ReadTimeout 9) pool_ab
                  eq_refl eq_refl)).
Defined.

(** X3. The direct transport returns None in one situation only: both calls
    of the wrapped transport raised a stale-connection error, and both
    evictions completed. *)
Theorem direct_transport_None_only_when_exhausted (super_arequest : Underlying)
    (req : Request) (st : TState) :
  (AsyncHTTPTransportFixed_arequest super_arequest req st).1 = Returns None →
  ∃ e1 pool1 st1 e2 pool2,
    super_arequest req (ts_calls st) (ts_pool st) = (Raises e1, pool1)
    ∧ stale_connection_error e1 = true
    ∧ evict req {| ts_pool := pool1; ts_log := ts_log st; ts_calls := S (ts_calls st) |}
      = (Returns tt, st1)
    ∧ super_arequest req (S (ts_calls st)) (ts_pool st1) = (Raises e2, pool2)
    ∧ stale_connection_error e2 = true
    ∧ ts_calls (AsyncHTTPTransportFixed_arequest super_arequest req st).2
      = S (S (ts_calls st)).
Proof.
  unfold AsyncHTTPTransportFixed_arequest, stale_connection_error.
  cbn [AsyncHTTPTransportFixed_loop]. unfold call_super.
  destruct (super_arequest req (ts_calls st) (ts_pool st)) as [[r1|e1] pool1] eqn:H1;
    [done|].
  destruct (isinstance e1 OSError_); [done|].
  set (st0 := {| ts_pool := pool1; ts_log := ts_log st; ts_calls := S (ts_calls st) |}).
  pose proof (evict_calls req st0) as Hcalls1.
  destruct (evict req st0) as [[[]|e'] st1] eqn:Hev1; cbn [snd] in Hcalls1.
  2:{ repeat case_match; cbn; intros; congruence. }
  assert (∀ msg e,
            (AsyncHTTPTransportFixed_loop super_arequest req 1 (log_warning msg e st1)).1
            = Returns None →
            ∃ e2 pool2,
              super_arequest req (S (ts_calls st)) (ts_pool st1) = (Raises e2, pool2)
              ∧ isinstance e2 CloseError || isinstance e2 RemoteProtocolError = true
              ∧ ts_calls (AsyncHTTPTransportFixed_loop super_arequest req 1
                            (log_warning msg e st1)).2 = S (S (ts_calls st)))
    as Hsecond.
  { intros msg e. cbn [AsyncHTTPTransportFixed_loop]. unfold call_super.
    cbn [log_warning ts_calls ts_pool ts_log]. rewrite Hcalls1. cbn [st0 ts_calls].
    destruct (super_arequest req (S (ts_calls st)) (ts_pool st1))
      as [[r2|e2] pool2] eqn:H2; [done|].
    destruct (isinstance e2 OSError_); [done|].
    match goal with
    | |- context [evict req ?s] =>
        pose proof (evict_calls req s) as Hcalls2;
        destruct (evict req s) as [[[]|e''] st2]; cbn [snd ts_calls] in Hcalls2
    end.
    - destruct (isinstance e2 CloseError) eqn:Hc2.
      + intros _. exists e2, pool2.
        split; [done|]. split; [by rewrite Hc2 | exact Hcalls2].
      + destruct (isinstance e2 RemoteProtocolError) eqn:Hr2.
        * intros _. exists e2, pool2.
          split; [done|]. split; [by rewrite Hr2, orb_true_r | exact Hcalls2].
        * case_match; cbn; intros; congruence.
    - repeat case_match; cbn; intros; congruence. }
  destruct (isinstance e1 CloseError) eqn:Hc1.
  - intros (e2 & pool2 & ? & ? & ?)%Hsecond. exists e1, pool1, st1, e2, pool2.
    rewrite Hc1. by repeat split.
  - destruct (isinstance e1 RemoteProtocolError) eqn:Hr1.
    + intros (e2 & pool2 & ? & ? & ?)%Hsecond. exists e1, pool1, st1, e2, pool2.
      rewrite Hc1, Hr1. by repeat split.
    + case_match; cbn; intros; congruence.
Qed.

Lemma direct_transport_None_only_when_exhausted_witness :
  (AsyncHTTPTransportFixed_arequest (always_raises (Exc CloseError 1)) request_a
     (tstate0 pool_ab)).1 = Returns None
  ∧ ts_calls (AsyncHTTPTransportFixed_arequest (always_raises (Exc CloseError 1))
                request_a (tstate0 pool_ab)).2 = 2.
Proof.
  assert ((AsyncHTTPTransportFixed_arequest (always_raises (Exc CloseError 1))
             request_a (tstate0 pool_ab)).1 = Returns None) as Hnone
    by (vm_compute; reflexivity).
  split; [exact Hnone|].
  destruct (direct_transport_None_only_when_exhausted _ _ _ Hnone)
    as (_ & _ & _ & _ & _ & _ & _ & _ & _ & _ & Hcalls).
  exact Hcalls.
Defined.

Lemma direct_transport_response (super_arequest : Underlying) (req : Request)
    (st : TState) (response : Response) :
  (AsyncHTTPTransportFixed_arequest super_arequest req st).1 = Returns (Some response) →
  (∃ pool1, super_arequest req (ts_calls st) (ts_pool st) = (Returns response, pool1))
  ∨ (∃ e1 pool1 st1 pool2,
       super_arequest req (ts_calls st) (ts_pool st) = (Raises e1, pool1)
       ∧ stale_connection_error e1 = true
       ∧ evict req {| ts_pool := pool1; ts_log := ts_log st;
                      ts_calls := S (ts_calls st) |} = (Returns tt, st1)
       ∧ super_arequest req (S (ts_calls st)) (ts_pool st1) = (Returns response, pool2)).
Proof.
  unfold AsyncHTTPTransportFixed_arequest, stale_connection_error.
  cbn [AsyncHTTPTransportFixed_loop]. unfold call_super.
  destruct (super_arequest req (ts_calls st) (ts_pool st)) as [[r1|e1] pool1] eqn:H1.
  { cbn. intros [= ->]. left. by eexists. }
  destruct (isinstance e1 OSError_); [done|].
  set (st0 := {| ts_pool := pool1; ts_log := ts_log st; ts_calls := S (ts_calls st) |}).
  pose proof (evict_calls req st0) as Hcalls1.
  destruct (evict req st0) as [[[]|e'] st1] eqn:Hev1; cbn [snd] in Hcalls1.
  2:{ repeat case_match; cbn; intros; congruence. }
  assert (∀ msg e,
            (AsyncHTTPTransportFixed_loop super_arequest req 1 (log_warning msg e st1)).1
            = Returns (Some response) →
            ∃ pool2,
              super_arequest req (S (ts_calls st)) (ts_pool st1) = (Returns response, pool2))
    as Hsecond.
  { intros msg e. cbn [AsyncHTTPTransportFixed_loop]. unfold call_super.
    cbn [log_warning ts_calls ts_pool ts_log]. rewrite Hcalls1. cbn [st0 ts_calls].
    destruct (super_arequest req (S (ts_calls st)) (ts_pool st1))
      as [[r2|e2] pool2] eqn:H2.
    - cbn. intros [= ->]. by eexists.
    - repeat case_match; cbn; intros; congruence. }
  destruct (isinstance e1 CloseError) eqn:Hc1.
  - intros [pool2 H2]%Hsecond. right. exists e1, pool1, st1, pool2.
    rewrite Hc1. by repeat split.
  - destruct (isinstance e1 RemoteProtocolError) eqn:Hr1.
    + intros [pool2 H2]%Hsecond. right. exists e1, pool1, st1, pool2.
      rewrite Hc1, Hr1. by repeat split.
    + case_match; cbn; intros; congruence.
Qed.

Lemma socks_transport_response (super_arequest : Underlying) (req : Request)
    (st : TState) (response : Response) :
  (AsyncProxyTransportFixed_arequest super_arequest req st).1 = Returns (Some response) →
  (∃ pool1, super_arequest req (ts_calls st) (ts_pool st) = (Returns response, pool1))
  ∨ (∃ e1 pool1 st1 pool2,
       super_arequest req (ts_calls st) (ts_pool st) = (Raises e1, pool1)
       ∧ isinstance e1 RemoteProtocolError = true
       ∧ evict req {| ts_pool := pool1; ts_log := ts_log st;
                      ts_calls := S (ts_calls st) |} = (Returns tt, st1)
       ∧ super_arequest req (S (ts_calls st)) (ts_pool st1) = (Returns response, pool2)).
Proof.
  unfold AsyncProxyTransportFixed_arequest.
  cbn [AsyncProxyTransportFixed_loop]. unfold call_super.
  destruct (super_arequest req (ts_calls st) (ts_pool st)) as [[r1|e1] pool1] eqn:H1.
  { cbn. intros [= ->]. left. by eexists. }
  destruct (isinstance e1 socks_ProxyConnectionError || isinstance e1 socks_ProxyTimeoutError
            || isinstance e1 socks_ProxyError); [done|].
  destruct (isinstance e1 OSError_); [done|].
  set (st0 := {| ts_pool := pool1; ts_log := ts_log st; ts_calls := S (ts_calls st) |}).
  pose proof (evict_calls req st0) as Hcalls1.
  destruct (evict req st0) as [[[]|e'] st1] eqn:Hev1; cbn [snd] in Hcalls1.
  2:{ repeat case_match; cbn; intros; congruence. }
  destruct (isinstance e1 RemoteProtocolError) eqn:Hr1.
  2:{ case_match; cbn; intros; congruence. }
  cbn [AsyncProxyTransportFixed_loop]. unfold call_super.
  cbn [log_warning ts_calls ts_pool ts_log]. rewrite Hcalls1. cbn [st0 ts_calls].
  destruct (super_arequest req (S (ts_calls st)) (ts_pool st1))
    as [[r2|e2] pool2] eqn:H2.
  - cbn. intros [= ->]. right. by exists e1, pool1, st1, pool2.
  - repeat case_match; cbn; intros; congruence.
Qed.

(** X4. A response that [arequest] returns, in either transport, is the
    response the wrapped transport returned to the request: on its first
    call, made on the pool as it was; or on its second call, made on the
    pool the eviction left, after a first call that raised an error the
    transport retries (a stale-connection error for the direct transport,
    RemoteProtocolError for the SOCKS transport).  The transports never make
    a response up. *)
Theorem response_comes_from_wrapped_transport (super_arequest : Underlying)
    (req : Request) (st : TState) (response : Response) :
  ((AsyncHTTPTransportFixed_arequest super_arequest req st).1
   = Returns (Some response) →
   (∃ pool1, super_arequest req (ts_calls st) (ts_pool st) = (Returns response, pool1))
   ∨ (∃ e1 pool1 st1 pool2,
        super_arequest req (ts_calls st) (ts_pool st) = (Raises e1, pool1)
        ∧ stale_connection_error e1 = true
        ∧ evict req {| ts_pool := pool1; ts_log := ts_log st;
                       ts_calls := S (ts_calls st) |} = (Returns tt, st1)
        ∧ super_arequest req (S (ts_calls st)) (ts_pool st1)
          = (Returns response, pool2)))
  ∧ ((AsyncProxyTransportFixed_arequest super_arequest req st).1
     = Returns (Some response) →
     (∃ pool1, super_arequest req (ts_calls st) (ts_pool st) = (Returns response, pool1))
     ∨ (∃ e1 pool1 st1 pool2,
          super_arequest req (ts_calls st) (ts_pool st) = (Raises e1, pool1)
          ∧ isinstance e1 RemoteProtocolError = true
          ∧ evict req {| ts_pool := pool1; ts_log := ts_log st;
                         ts_calls := S (ts_calls st) |} = (Returns tt, st1)
          ∧ super_arequest req (S (ts_calls st)) (ts_pool st1)
            = (Returns response, pool2))).
Proof.
  split; [apply direct_transport_response | apply socks_transport_response].
Qed.

Lemma response_comes_from_wrapped_transport_witness :
  (AsyncHTTPTransportFixed_arequest (raises_once (Exc CloseError 1)) request_a
     (tstate0 pool_ab)).1 = Returns (Some response_ok)
  ∧ ∃ st1,
      evict request_a {| ts_pool := pool_ab; ts_log := []; ts_calls := 1 |}
      = (Returns tt, st1)
      ∧ ts_pool st1 = [conn_b1]
      ∧ raises_once (Exc CloseError 1) request_a 1 (ts_pool st1)
        = (Returns response_ok, [conn_b1]).
Proof.
  assert ((AsyncHTTPTransportFixed_arequest (raises_once (Exc CloseError 1)) request_a
             (tstate0 pool_ab)).1 = Returns (Some response_ok)) as Hresp
    by (vm_compute; reflexivity).
  split; [exact Hresp|].
  destruct (proj1 (response_comes_from_wrapped_transport _ _ _ _) Hresp)
    as [[pool1 Hfirst] | (e1 & pool1 & st1 & pool2 & Hfirst & _ & Hevict & Hsecond)].
  - discriminate Hfirst.
  - injection Hfirst as <- <-. exists st1. split; [exact Hevict|].
    assert (ts_pool st1 = [conn_b1]) as Hpool.
    { vm_compute in Hevict. by injection Hevict as <-. }
    split; [exact Hpool|]. by rewrite Hpool.
Defined.

(** ** More on eviction *)

Lemma filter_none {A} (P : A → Prop) `{!∀ x, Decision (P x)} (l : list A) :
  (∀ x, ¬ P x) → filter P l = [].
Proof.
  intros HP. induction l as [|x l IH]; [done|].
  by rewrite filter_cons, decide_False, IH.
Qed.

(** X5. Right after an eviction that returned, a second eviction for the
    same URL finds nothing to close: it returns, leaves the pool as it is
    and logs its debug record only. *)
Theorem eviction_twice (pool : Pool) (url : URL) (log : Log) :
  (close_connections_for_url pool url log).1.1 = Returns tt →
  let pool1 := (close_connections_for_url pool url log).1.2 in
  let log1 := (close_connections_for_url pool url log).2 in
  close_connections_for_url pool1 url log1
  = (Returns tt, pool1, log1 ++ [LogDebug "Drop connections for %r"]).
Proof.
  intros Hret. cbv zeta.
  assert (Forall (λ c, closes_quietly c = true)
            (_connections_for_origin (url_to_origin url) pool)) as Hquiet
    by (by eapply close_each_returns).
  assert (close_connections_for_url pool url log
          = (Returns tt, filter (λ c, conn_origin c ≠ url_to_origin url) pool,
             (log ++ [LogDebug "Drop connections for %r"])
             ++ close_warnings (_connections_for_origin (url_to_origin url) pool)))
    as ->.
  { unfold close_connections_for_url.
    by rewrite (close_each_quiet _ _ _ Hquiet), not_in_own_origin. }
  cbn [fst snd]. unfold close_connections_for_url.
  assert (_connections_for_origin (url_to_origin url)
            (filter (λ c, conn_origin c ≠ url_to_origin url) pool) = []) as ->.
  { unfold _connections_for_origin. rewrite list_filter_filter.
    apply filter_none. intros x [? ?]. done. }
  done.
Qed.

Lemma eviction_twice_witness :
  (close_connections_for_url pool_ab url_a []).1.1 = Returns tt
  ∧ (close_connections_for_url [conn_b1] url_a []).1 = (Returns tt, [conn_b1]).
Proof.
  assert ((close_connections_for_url pool_ab url_a []).1.1 = Returns tt) as Hret
    by (vm_compute; reflexivity).
  split; [exact Hret|].
  pose proof (eviction_twice pool_ab url_a [] Hret) as Htwice.
  cbv zeta in Htwice. apply (f_equal fst) in Htwice. vm_compute in Htwice.
  vm_compute. exact Htwice.
Defined.

(** ** More on the SSL context cache *)

Lemma ssl_cache_ok_step (key : SSLKey) (s : SSLState) :
  ssl_cache_ok s → ssl_cache_ok (get_sslcontexts_key key s).2.
Proof.
  destruct key as [[[[proxy_url cert] verify] trust_env] http2].
  intros (Hbuilt & Hinj & Hsize). unfold get_sslcontexts_key, get_sslcontexts.
  destruct (SSLCONTEXTS s !! (proxy_url, cert, verify, trust_env, http2))
    as [ctx|] eqn:Hkey; cbn [snd]; [done|].
  split; [|split]; cbn [SSLCONTEXTS ssl_built].
  - intros p c v t h ctx. rewrite lookup_insert.
    case_decide as Heq.
    + injection Heq as <- <- <- <- <-. intros [= <-]. cbn. split; [done | lia].
    + intros [Hctx Hlt]%Hbuilt. split; [done | lia].
  - intros k1 k2 c1 c2. rewrite !lookup_insert.
    destruct k1 as [[[[p1 ce1] v1] t1] h1], k2 as [[[[p2 ce2] v2] t2] h2].
    repeat case_decide; simplify_eq/=; try done.
    + intros [= <-] [_ Hlt]%Hbuilt Hid. cbn in Hid. lia.
    + intros [_ Hlt]%Hbuilt [= <-] Hid. cbn in Hid. lia.
    + apply Hinj.
  - rewrite map_size_insert_None by done. by rewrite Hsize.
Qed.

Lemma ssl_cache_ok_run (keys : list SSLKey) (s : SSLState) :
  ssl_cache_ok s → ssl_cache_ok (get_sslcontexts_all keys s).
Proof.
  revert s. induction keys as [|key keys IH]; intros s Hok; [done|].
  cbn [get_sslcontexts_all]. by apply IH, ssl_cache_ok_step.
Qed.

(** X6. From the empty cache the module starts with, whatever calls of
    [get_sslcontexts] are made: every cached context was built from the
    cert, verify, trust_env and http2 of its own key; two different keys
    never hold the same context object; and the number of contexts built is
    the number of keys cached. *)
Theorem ssl_cache_from_empty (keys : list SSLKey) :
  ssl_cache_ok (get_sslcontexts_all keys {| SSLCONTEXTS := ∅; ssl_built := 0 |}).
Proof.
  apply ssl_cache_ok_run. split; [|split]; cbn [SSLCONTEXTS ssl_built].
  - intros p c v t h ctx. by rewrite lookup_empty.
  - intros k1 k2 c1 c2. by rewrite lookup_empty.
  - apply map_size_empty.
Qed.

(** ** More on the client factory *)

Lemma get_transport_keeps (env : ClientEnv) (verify : Verify) (http2 : bool)
    (local_address proxy_url : option string) (limit : Limits) (retries : nat)
    (s : SSLState) (k : SSLKey) (c : SSLContext) :
  SSLCONTEXTS s !! k = Some c →
  SSLCONTEXTS (get_transport env verify http2 local_address proxy_url limit
                 retries s).2 !! k = Some c.
Proof.
  intros Hk. unfold get_transport.
  pose proof (get_sslcontexts_keeps (None, None, inl true, false, http2) k c s Hk)
    as Hkeep. cbn [get_sslcontexts_key] in Hkeep.
  destruct verify as [[|]| |];
    repeat case_match; simplify_eq/=; done.
Qed.

Lemma get_transport_for_socks_proxy_keeps (env : ClientEnv) (verify : Verify)
    (http2 : bool) (local_address : option string) (proxy_url : string)
    (limit : Limits) (retries : nat) (s : SSLState) (k : SSLKey) (c : SSLContext) :
  SSLCONTEXTS s !! k = Some c →
  SSLCONTEXTS (get_transport_for_socks_proxy env verify http2 local_address
                 proxy_url limit retries s).2 !! k = Some c.
Proof.
  intros Hk. unfold get_transport_for_socks_proxy.
  assert (∀ u, SSLCONTEXTS (get_sslcontexts (Some u) None (inl true) false http2 s).2
               !! k = Some c) as Hkeep.
  { intros u. apply (get_sslcontexts_keeps (Some u, None, inl true, false, http2)), Hk. }
  destruct (startswith proxy_url "socks5h://");
    (destruct (parse_proxy_url env _) as [[[[[? ?] ?] ?] ?]|e]; [|done]);
    (destruct verify as [[|]| |]; [|done..]);
    match goal with
    | |- context [get_sslcontexts (Some ?u) _ _ _ _ _] =>
        specialize (Hkeep u);
        destruct (get_sslcontexts (Some u) None (inl true) false http2 s)
    end; done.
Qed.

(** What [get_transport] returns when [verify] is True: a direct transport
    holding the context cached for (None, None, True, False, http2). *)
Lemma get_transport_verify_True (env : ClientEnv) (http2 : bool)
    (local_address proxy_url : option string) (limit : Limits) (retries : nat)
    (s s' : SSLState) (t : Transport) :
  get_transport env (VerifyBool true) http2 local_address proxy_url limit retries s
  = (Returns t, s') →
  ∃ ctx, SSLCONTEXTS s' !! (None, None, inl true, false, http2) = Some ctx
         ∧ transport_verify t = Some (VerifyContext ctx)
         ∧ is_direct_transport t = true.
Proof.
  unfold get_transport.
  pose proof (get_sslcontexts_caches (None, None, inl true, false, http2) s) as Hc.
  cbn [get_sslcontexts_key] in Hc.
  destruct (get_sslcontexts None None (inl true) false http2 s) as [ctx s1].
  cbn [fst snd] in Hc.
  repeat case_match; simplify_eq/=; intros; simplify_eq/=; by exists ctx.
Qed.

Lemma mount_proxies_keeps (env : ClientEnv) (enable_http : bool) (verify : Verify)
    (enable_http2 : bool) (local_address : option string) (limit : Limits)
    (retries : nat) (items : list (string * string))
    (mounts : gmap string Transport) (s : SSLState) (k : SSLKey) (c : SSLContext) :
  SSLCONTEXTS s !! k = Some c →
  SSLCONTEXTS (mount_proxies env enable_http verify enable_http2 local_address
                 limit retries items mounts s).2 !! k = Some c.
Proof.
  revert mounts s. induction items as [|[pattern proxy_url] items IH];
    intros mounts s Hk; [done|].
  cbn [mount_proxies].
  destruct (http_pattern_blocked enable_http pattern); [by apply IH|].
  destruct (socks_url proxy_url) eqn:Hsocks; unfold socks_url in Hsocks;
    rewrite Hsocks.
  - pose proof (get_transport_for_socks_proxy_keeps env verify enable_http2
                  local_address proxy_url limit retries s k c Hk) as Hkeep.
    destruct (get_transport_for_socks_proxy _ _ _ _ _ _ _ _) as [[t|e] s1];
      [by apply IH | done].
  - pose proof (get_transport_keeps env verify enable_http2 local_address
                  (Some proxy_url) limit retries s k c Hk) as Hkeep.
    destruct (get_transport _ _ _ _ _ _ _ _) as [[t|e] s1];
      [by apply IH | done].
Qed.

Lemma mount_proxies_direct_context (env : ClientEnv) (enable_http : bool)
    (http2 : bool) (local_address : option string) (limit : Limits)
    (retries : nat) (items : list (string * string))
    (mounts mounts' : gmap string Transport) (s s' : SSLState) :
  mount_proxies env enable_http (VerifyBool true) http2 local_address limit
    retries items mounts s = (Returns mounts', s') →
  (∀ pattern t, mounts !! pattern = Some t → is_direct_transport t = true →
     ∃ ctx, SSLCONTEXTS s !! (None, None, inl true, false, http2) = Some ctx
            ∧ transport_verify t = Some (VerifyContext ctx)) →
  ∀ pattern t, mounts' !! pattern = Some t → is_direct_transport t = true →
    ∃ ctx, SSLCONTEXTS s' !! (None, None, inl true, false, http2) = Some ctx
           ∧ transport_verify t = Some (VerifyContext ctx).
Proof.
  revert mounts s. induction items as [|[pattern0 proxy_url] items IH];
    intros mounts s Hrun Hinv.
  { cbn in Hrun. by injection Hrun as <- <-. }
  cbn [mount_proxies] in Hrun.
  destruct (http_pattern_blocked enable_http pattern0); [by eapply IH|].
  destruct (socks_url proxy_url) eqn:Hsocks; unfold socks_url in Hsocks;
    rewrite Hsocks in Hrun.
  - destruct (get_transport_for_socks_proxy env (VerifyBool true) http2
                local_address proxy_url limit retries s) as [[t0|e] s1] eqn:Hsocksrun;
      [|done].
    eapply IH; [exact Hrun|]. intros pattern t. rewrite lookup_insert.
    case_decide as Heq.
    + intros [= <-]. unfold get_transport_for_socks_proxy in Hsocksrun.
      repeat case_match; simplify_eq/=; done.
    + intros Ht Hdirect. destruct (Hinv pattern t Ht Hdirect) as (ctx & Hctx & Hv).
      exists ctx. split; [|done].
      pose proof (get_transport_for_socks_proxy_keeps env (VerifyBool true) http2
                    local_address proxy_url limit retries s _ _ Hctx) as Hkeep.
      by rewrite Hsocksrun in Hkeep.
  - destruct (get_transport env (VerifyBool true) http2 local_address
                (Some proxy_url) limit retries s) as [[t0|e] s1] eqn:Hdirectrun;
      [|done].
    eapply IH; [exact Hrun|]. intros pattern t. rewrite lookup_insert.
    case_decide as Heq.
    + intros [= <-] _.
      destruct (get_transport_verify_True _ _ _ _ _ _ _ _ _ Hdirectrun)
        as (ctx & Hctx & Hv & _). by exists ctx.
    + intros Ht Hdirect. destruct (Hinv pattern t Ht Hdirect) as (ctx & Hctx & Hv).
      exists ctx. split; [|done].
      pose proof (get_transport_keeps env (VerifyBool true) http2 local_address
                    (Some proxy_url) limit retries s _ _ Hctx) as Hkeep.
      by rewrite Hdirectrun in Hkeep.
Qed.

(** X7. In a client built with [verify] True, the default transport and
    every direct transport mounted for a proxy hold one and the same SSL
    context object: the one cached for (None, None, True, False, http2). *)
Theorem new_client_direct_transports_share_context (env : ClientEnv)
    (enable_http enable_http2 : bool) (max_conn max_keepalive : option nat)
    (expiry : option Q) (proxies : Proxies) (local_address : option string)
    (retries max_redirects : nat) (s s' : SSLState) (client : Client) :
  new_client env enable_http (VerifyBool true) enable_http2 max_conn max_keepalive
    expiry proxies local_address retries max_redirects s = (Returns client, s') →
  ∃ ctx,
    SSLCONTEXTS s' !! (None, None, inl true, false, enable_http2) = Some ctx
    ∧ transport_verify (client_transport client) = Some (VerifyContext ctx)
    ∧ ∀ pattern t, client_mounts client !! pattern = Some t →
        is_direct_transport t = true →
        transport_verify t = Some (VerifyContext ctx).
Proof.
  unfold new_client.
  destruct (mount_proxies _ _ _ _ _ _ _ _ _ _) as [[mounts|e] s1] eqn:Hmounts; [|done].
  destruct (get_transport _ _ _ _ _ _ _ s1) as [[transport|e] s2] eqn:Hdefault; [|done].
  intros [= <- <-]. cbn [client_transport client_mounts].
  destruct (get_transport_verify_True _ _ _ _ _ _ _ _ _ Hdefault)
    as (ctx & Hctx & Hv & _).
  exists ctx. split; [done|]. split; [done|].
  intros pattern t Ht Hdirect.
  assert (mounts !! pattern = Some t) as Hmount.
  { destruct enable_http; cbn [negb] in Ht; [done|].
    rewrite lookup_insert in Ht. case_decide; [|done].
    injection Ht as <-. done. }
  destruct (mount_proxies_direct_context _ _ _ _ _ _ _ _ _ _ _ Hmounts
              ltac:(intros ? ?; by rewrite lookup_empty) pattern t Hmount Hdirect)
    as (ctx1 & Hctx1 & Hv1).
  pose proof (get_transport_keeps env (VerifyBool true) enable_http2 local_address
                None {| max_connections := max_conn;
                        max_keepalive_connections := max_keepalive;
                        keepalive_expiry := expiry |} retries s1 _ _ Hctx1) as Hkeep.
  rewrite Hdefault in Hkeep. cbn [snd] in Hkeep. congruence.
Qed.

Lemma new_client_direct_transports_share_context_witness :
  ∃ client s' ctx,
    new_client client_env true (VerifyBool true) true (Some 100) (Some 10) None
      proxies_mixed None 0 30 ssl_state0 = (Returns client, s')
    ∧ transport_verify (client_transport client) = Some (VerifyContext ctx).
Proof.
  destruct (new_client client_env true (VerifyBool true) true (Some 100) (Some 10)
              None proxies_mixed None 0 30 ssl_state0) as [[client|e] s'] eqn:Hrun.
  - destruct (new_client_direct_transports_share_context _ _ _ _ _ _ _ _ _ _ _ _ _ Hrun)
      as (ctx & _ & Hv & _).
    exists client, s', ctx. split; [reflexivity | exact Hv].
  - assert (returned
              (new_client client_env true (VerifyBool true) true (Some 100)
                 (Some 10) None proxies_mixed None 0 30 ssl_state0).1 = true) as Hret
      by reflexivity.
    rewrite Hrun in Hret. discriminate Hret.
Defined.

Lemma substring_all (s : string) : String.substring 0 (String.length s) s = s.
Proof. induction s as [|a s IH]; [done|]. cbn. by rewrite IH. Qed.

(** X8. A proxy URL 'socks5h://REST' gives the transport that
    'socks5://REST' gives, built from the same parsed fields and the same
    SSL context and leaving the cache in the same state, except that its
    [rdns] flag is True instead of False. *)
Theorem socks5h_is_socks5_with_rdns (env : ClientEnv) (verify : Verify)
    (http2 : bool) (local_address : option string) (rest : string)
    (limit : Limits) (retries : nat) (s : SSLState)
    (proxy_type proxy_host : string) (proxy_port : Z)
    (username password : option string) :
  parse_proxy_url env ("socks5://" +:+ rest)
  = Returns (proxy_type, proxy_host, proxy_port, username, password) →
  ∃ verify' s',
    get_transport_for_socks_proxy env verify http2 local_address
      ("socks5h://" +:+ rest) limit retries s
    = (Returns (AsyncProxyTransportFixed proxy_type proxy_host proxy_port username
                  password true (LOOP env) verify' http2 local_address
                  (max_connections limit) (max_keepalive_connections limit)
                  (keepalive_expiry limit) retries "asyncio" false), s')
    ∧ get_transport_for_socks_proxy env verify http2 local_address
        ("socks5://" +:+ rest) limit retries s
      = (Returns (AsyncProxyTransportFixed proxy_type proxy_host proxy_port username
                    password false (LOOP env) verify' http2 local_address
                    (max_connections limit) (max_keepalive_connections limit)
                    (keepalive_expiry limit) retries "asyncio" false), s').
Proof.
  intros Hparse. unfold get_transport_for_socks_proxy.
  assert (startswith ("socks5h://" +:+ rest) "socks5h://" = true) as ->
    by (vm_compute; by destruct rest).
  assert (startswith ("socks5://" +:+ rest) "socks5h://" = false) as ->
    by (vm_compute; reflexivity).
  assert (string_from (String.length "socks5h://") ("socks5h://" +:+ rest) = rest)
    as ->.
  { transitivity (String.substring 0 (String.length rest - 0) rest); [reflexivity|].
    rewrite Nat.sub_0_r. apply substring_all. }
  rewrite Hparse.
  destruct verify as [[|]| |]; try (by eexists _, _).
  destruct (get_sslcontexts _ _ _ _ _ _) as [ctx s']. by eexists _, _.
Qed.

Lemma socks5h_is_socks5_with_rdns_witness :
  ∃ verify' s',
    get_transport_for_socks_proxy client_env (VerifyBool false) true None
      "socks5h://127.0.0.1:9050"
      {| max_connections := None; max_keepalive_connections := None;
         keepalive_expiry := None |} 0 ssl_state0
    = (Returns (AsyncProxyTransportFixed "socks5" "127.0.0.1" 9050%Z None None
                  true (Some 0%nat) verify' true None None None None 0
                  "asyncio" false), s').
Proof.
  destruct (socks5h_is_socks5_with_rdns client_env (VerifyBool false) true None
              "127.0.0.1:9050"
              {| max_connections := None; max_keepalive_connections := None;
                 keepalive_expiry := None |} 0 ssl_state0
              "socks5" "127.0.0.1" 9050%Z None None eq_refl)
    as (verify' & s' & Hh & _).
  exists verify', s'. exact Hh.
Defined.

Lemma get_transport_state (env : ClientEnv) (verify : Verify) (http2 : bool)
    (local_address proxy_url : option string) (limit : Limits) (retries : nat)
    (s : SSLState) :
  verify ≠ VerifyBool true →
  (get_transport env verify http2 local_address proxy_url limit retries s).2 = s.
Proof.
  intros Hv. unfold get_transport.
  destruct verify as [[|]| |]; [done|..]; repeat case_match; by simplify_eq/=.
Qed.

Lemma get_transport_for_socks_proxy_state (env : ClientEnv) (verify : Verify)
    (http2 : bool) (local_address : option string) (proxy_url : string)
    (limit : Limits) (retries : nat) (s : SSLState) :
  verify ≠ VerifyBool true →
  (get_transport_for_socks_proxy env verify http2 local_address proxy_url limit
     retries s).2 = s.
Proof.
  intros Hv. unfold get_transport_for_socks_proxy.
  destruct verify as [[|]| |]; [done|..]; repeat case_match; by simplify_eq/=.
Qed.

Lemma mount_proxies_state (env : ClientEnv) (enable_http : bool) (verify : Verify)
    (enable_http2 : bool) (local_address : option string) (limit : Limits)
    (retries : nat) (items : list (string * string))
    (mounts : gmap string Transport) (s : SSLState) :
  verify ≠ VerifyBool true →
  (mount_proxies env enable_http verify enable_http2 local_address limit retries
     items mounts s).2 = s.
Proof.
  intros Hv. revert mounts.
  induction items as [|[pattern proxy_url] items IH]; intros mounts; [done|].
  cbn [mount_proxies].
  destruct (http_pattern_blocked enable_http pattern); [apply IH|].
  destruct (socks_url proxy_url) eqn:Hsocks; unfold socks_url in Hsocks;
    rewrite Hsocks.
  - pose proof (get_transport_for_socks_proxy_state env verify enable_http2
                  local_address proxy_url limit retries s Hv) as Hs.
    destruct (get_transport_for_socks_proxy _ _ _ _ _ _ _ _) as [[t|e] s1];
      cbn [snd] in Hs; subst s1; [apply IH | done].
  - pose proof (get_transport_state env verify enable_http2 local_address
                  (Some proxy_url) limit retries s Hv) as Hs.
    destruct (get_transport _ _ _ _ _ _ _ _) as [[t|e] s1];
      cbn [snd] in Hs; subst s1; [apply IH | done].
Qed.

(** X9. When [verify] is anything but True (False, a path, a context),
    [new_client] never touches the SSL context cache, whether it returns a
    client or raises. *)
Theorem new_client_explicit_verify_leaves_cache (env : ClientEnv)
    (enable_http : bool) (verify : Verify) (enable_http2 : bool)
    (max_conn max_keepalive : option nat) (expiry : option Q) (proxies : Proxies)
    (local_address : option string) (retries max_redirects : nat) (s : SSLState) :
  verify ≠ VerifyBool true →
  (new_client env enable_http verify enable_http2 max_conn max_keepalive expiry
     proxies local_address retries max_redirects s).2 = s.
Proof.
  intros Hv. unfold new_client.
  match goal with
  | |- context [mount_proxies ?e ?h ?v ?h2 ?la ?lim ?r ?it ?m ?st] =>
      pose proof (mount_proxies_state e h v h2 la lim r it m st Hv) as Hs;
      destruct (mount_proxies e h v h2 la lim r it m st) as [[mounts|e0] s1];
      cbn [snd] in Hs; subst s1; [|done]
  end.
  match goal with
  | |- context [get_transport ?e ?v ?h2 ?la ?pu ?lim ?r ?st] =>
      pose proof (get_transport_state e v h2 la pu lim r st Hv) as Hs;
      destruct (get_transport e v h2 la pu lim r st) as [[t|e0] s1];
      cbn [snd] in Hs; by subst s1
  end.
Qed.

Lemma new_client_explicit_verify_leaves_cache_witness :
  VerifyPath "/etc/ssl/ca.pem" ≠ VerifyBool true
  ∧ (new_client client_env false (VerifyPath "/etc/ssl/ca.pem") true (Some 100)
       (Some 10) None proxies_mixed None 0 30 ssl_state0).2 = ssl_state0.
Proof.
  assert (VerifyPath "/etc/ssl/ca.pem" ≠ VerifyBool true) as Hv by discriminate.
  split; [exact Hv|].
  exact (new_client_explicit_verify_leaves_cache client_env false _ true (Some 100)
           (Some 10) None proxies_mixed None 0 30 ssl_state0 Hv).
Defined.

Lemma mount_proxies_dom (env : ClientEnv) (enable_http : bool) (verify : Verify)
    (enable_http2 : bool) (local_address : option string) (limit : Limits)
    (retries : nat) (items : list (string * string))
    (mounts mounts' : gmap string Transport) (s s' : SSLState) :
  mount_proxies env enable_http verify enable_http2 local_address limit retries
    items mounts s = (Returns mounts', s') →
  dom mounts'
  = dom mounts
    ∪ list_to_set (filter (λ it, http_pattern_blocked enable_http it.1 = false)
                     items).*1.
Proof.
  revert mounts s. induction items as [|[pattern proxy_url] items IH];
    intros mounts s Hrun.
  { cbn in Hrun. injection Hrun as <- <-. cbn. set_solver. }
  cbn [mount_proxies] in Hrun. rewrite filter_cons. cbn [fst].
  destruct (http_pattern_blocked enable_http pattern) eqn:Hblocked.
  - rewrite decide_False by done. by eapply IH.
  - rewrite decide_True by done.
    destruct (if _ : bool then _ else _) as [[t|e] s1]; [|done].
    rewrite (IH _ _ Hrun), dom_insert_L. cbn. set_solver.
Qed.

(** X11. The patterns mounted in a client are the patterns of the proxy
    mapping that are not blocked, and 'http://' besides when plaintext HTTP
    is disabled; a single proxy URL counts as the mapping of 'all://'. *)
Theorem new_client_mounted_patterns (env : ClientEnv) (enable_http : bool)
    (verify : Verify) (enable_http2 : bool) (max_conn max_keepalive : option nat)
    (expiry : option Q) (proxies : Proxies) (local_address : option string)
    (retries max_redirects : nat) (s s' : SSLState) (client : Client) :
  new_client env enable_http verify enable_http2 max_conn max_keepalive expiry
    proxies local_address retries max_redirects s = (Returns client, s') →
  dom (client_mounts client)
  = (if enable_http then ∅ else {["http://"]})
    ∪ list_to_set (filter (λ it, http_pattern_blocked enable_http it.1 = false)
                     (iter_proxies proxies)).*1.
Proof.
  unfold new_client.
  destruct (mount_proxies _ _ _ _ _ _ _ _ _ _) as [[mounts|e] s1] eqn:Hmounts; [|done].
  destruct (get_transport _ _ _ _ _ _ _ s1) as [[transport|e] s2]; [|done].
  intros [= <- <-]. cbn [client_mounts].
  pose proof (mount_proxies_dom _ _ _ _ _ _ _ _ _ _ _ _ Hmounts) as Hdom.
  rewrite dom_empty_L in Hdom.
  destruct enable_http; cbn [negb].
  - rewrite Hdom. set_solver.
  - rewrite dom_insert_L, Hdom. set_solver.
Qed.

Lemma new_client_mounted_patterns_witness :
  ∃ client s',
    new_client client_env false (VerifyBool false) true None None None
      proxies_mixed None 0 30 ssl_state0 = (Returns client, s')
    ∧ dom (client_mounts client) = {["http://"; "https://"]}.
Proof.
  destruct (new_client client_env false (VerifyBool false) true None None None
              proxies_mixed None 0 30 ssl_state0) as [[client|e] s'] eqn:Hrun.
  - exists client, s'. split; [reflexivity|].
    rewrite (new_client_mounted_patterns _ _ _ _ _ _ _ _ _ _ _ _ _ _ Hrun).
    cbn. set_solver.
  - assert (returned
              (new_client client_env false (VerifyBool false) true None None None
                 proxies_mixed None 0 30 ssl_state0).1 = true) as Hret by reflexivity.
    rewrite Hrun in Hret. discriminate Hret.
Defined.

Lemma mount_proxies_other (env : ClientEnv) (enable_http : bool) (verify : Verify)
    (enable_http2 : bool) (local_address : option string) (limit : Limits)
    (retries : nat) (items : list (string * string))
    (mounts mounts' : gmap string Transport) (s s' : SSLState) (pattern : string) :
  mount_proxies env enable_http verify enable_http2 local_address limit retries
    items mounts s = (Returns mounts', s') →
  pattern ∉ items.*1 →
  mounts' !! pattern = mounts !! pattern.
Proof.
  revert mounts s. induction items as [|[pattern0 proxy_url] items IH];
    intros mounts s Hrun Hnotin.
  { cbn in Hrun. by injection Hrun as <- <-. }
  cbn [mount_proxies] in Hrun. cbn in Hnotin.
  apply not_elem_of_cons in Hnotin as [Hne Hnotin].
  destruct (http_pattern_blocked enable_http pattern0); [by eapply IH|].
  destruct (if _ : bool then _ else _) as [[t|e] s1]; [|done].
  rewrite (IH _ _ Hrun Hnotin). by apply lookup_insert_ne.
Qed.

Lemma mount_proxies_kind (env : ClientEnv) (enable_http : bool) (verify : Verify)
    (enable_http2 : bool) (local_address : option string) (limit : Limits)
    (retries : nat) (items : list (string * string))
    (mounts mounts' : gmap string Transport) (s s' : SSLState)
    (pattern proxy_url : string) :
  mount_proxies env enable_http verify enable_http2 local_address limit retries
    items mounts s = (Returns mounts', s') →
  NoDup items.*1 →
  (pattern, proxy_url) ∈ items →
  http_pattern_blocked enable_http pattern = false →
  ∃ t, mounts' !! pattern = Some t
       ∧ is_socks_transport t = socks_url proxy_url
       ∧ is_direct_transport t = negb (socks_url proxy_url).
Proof.
  revert mounts s. induction items as [|[pattern0 proxy_url0] items IH];
    intros mounts s Hrun Hnodup Hin Hunblocked.
  { by apply elem_of_nil in Hin. }
  cbn in Hnodup. apply NoDup_cons in Hnodup as [Hfresh Hnodup].
  cbn [mount_proxies] in Hrun.
  apply elem_of_cons in Hin as [[= <- <-] | Hin].
  - rewrite Hunblocked in Hrun.
    destruct (socks_url proxy_url) eqn:Hsocks; unfold socks_url in Hsocks;
      rewrite Hsocks in Hrun.
    + destruct (get_transport_for_socks_proxy _ _ _ _ _ _ _ _) as [[t|e] s1] eqn:Ht;
        [|done].
      exists t. rewrite (mount_proxies_other _ _ _ _ _ _ _ _ _ _ _ _ _ Hrun Hfresh).
      rewrite lookup_insert_eq. split; [done|].
      unfold get_transport_for_socks_proxy in Ht.
      repeat case_match; by simplify_eq/=.
    + destruct (get_transport _ _ _ _ _ _ _ _) as [[t|e] s1] eqn:Ht; [|done].
      exists t. rewrite (mount_proxies_other _ _ _ _ _ _ _ _ _ _ _ _ _ Hrun Hfresh).
      rewrite lookup_insert_eq. split; [done|].
      unfold get_transport in Ht.
      repeat case_match; by simplify_eq/=.
  - destruct (http_pattern_blocked enable_http pattern0); [by eapply IH|].
    destruct (if _ : bool then _ else _) as [[t|e] s1]; [|done].
    by eapply IH.
Qed.

(** X12. Every entry of the proxy mapping whose pattern is not blocked is
    mounted under its pattern, to a SOCKS transport when its URL starts with
    'socks4://', 'socks5://' or 'socks5h://' and to a direct transport
    otherwise. *)
Theorem new_client_transport_per_proxy (env : ClientEnv) (enable_http : bool)
    (verify : Verify) (enable_http2 : bool) (max_conn max_keepalive : option nat)
    (expiry : option Q) (proxies : Proxies) (local_address : option string)
    (retries max_redirects : nat) (s s' : SSLState) (client : Client)
    (pattern proxy_url : string) :
  new_client env enable_http verify enable_http2 max_conn max_keepalive expiry
    proxies local_address retries max_redirects s = (Returns client, s') →
  NoDup (iter_proxies proxies).*1 →
  (pattern, proxy_url) ∈ iter_proxies proxies →
  http_pattern_blocked enable_http pattern = false →
  ∃ t, client_mounts client !! pattern = Some t
       ∧ is_socks_transport t = socks_url proxy_url
       ∧ is_direct_transport t = negb (socks_url proxy_url).
Proof.
  unfold new_client.
  destruct (mount_proxies _ _ _ _ _ _ _ _ _ _) as [[mounts|e] s1] eqn:Hmounts; [|done].
  destruct (get_transport _ _ _ _ _ _ _ s1) as [[transport|e] s2]; [|done].
  intros [= <- <-] Hnodup Hin Hunblocked. cbn [client_mounts].
  destruct (mount_proxies_kind _ _ _ _ _ _ _ _ _ _ _ _ _ _ Hmounts Hnodup Hin Hunblocked)
    as (t & Ht & Hkind).
  exists t. split; [|done].
  destruct enable_http; cbn [negb]; [done|].
  rewrite lookup_insert_ne; [done|]. intros <-. done.
Qed.

Lemma new_client_transport_per_proxy_witness :
  NoDup (iter_proxies proxies_mixed).*1
  ∧ ∃ client s' t,
      new_client client_env false (VerifyBool false) true None None None
        proxies_mixed None 0 30 ssl_state0 = (Returns client, s')
      ∧ client_mounts client !! "https://" = Some t
      ∧ is_socks_transport t = true.
Proof.
  assert (NoDup (iter_proxies proxies_mixed).*1) as Hnodup.
  { cbn. apply NoDup_cons. split; [|apply NoDup_singleton].
    intros Hin. apply list_elem_of_singleton in Hin. discriminate. }
  split; [exact Hnodup|].
  destruct (new_client client_env false (VerifyBool false) true None None None
              proxies_mixed None 0 30 ssl_state0) as [[client|e] s'] eqn:Hrun.
  - destruct (new_client_transport_per_proxy _ _ _ _ _ _ _ _ _ _ _ _ _ _
                "https://" "socks5h://127.0.0.1:9050" Hrun Hnodup)
      as (t & Ht & Hsocks & _).
    + cbn. right. left.
    + reflexivity.
    + exists client, s', t. split; [reflexivity|]. split; [exact Ht | exact Hsocks].
  - assert (returned
              (new_client client_env false (VerifyBool false) true None None None
                 proxies_mixed None 0 30 ssl_state0).1 = true) as Hret by reflexivity.
    rewrite Hrun in Hret. discriminate Hret.
Defined.

(** ** More on the orchestrator *)

Lemma _get_requests_loop_query (env : SearchEnv) (engineref_list : list EngineRef)
    (requests : list RequestTuple) (default_timeout : Q) (self : Search) :
  search_query (_get_requests_loop env engineref_list requests default_timeout self).2
  = search_query self.
Proof. by destruct (_get_requests_loop_frame env engineref_list requests
                      default_timeout self) as [? _]. Qed.

Lemma _get_requests_loop_known (env : SearchEnv) (engineref_list : list EngineRef)
    (requests : list RequestTuple) (default_timeout : Q) (self : Search) :
  Forall (λ er, is_Some (PROCESSORS env !! er_name er)) engineref_list →
  returned (_get_requests_loop env engineref_list requests default_timeout self).1
  = true.
Proof.
  intros Hknown. revert requests default_timeout self.
  induction Hknown as [|engineref rest [processor Hproc] _ IH];
    intros requests default_timeout self; [done|].
  cbn [_get_requests_loop]. rewrite Hproc.
  destruct (extend_container_if_suspended processor (result_container self))
    as [[|] rc]; [apply IH|].
  destruct (get_params processor _ _); apply IH.
Qed.

Lemma _get_requests_loop_raises (env : SearchEnv) (engineref_list : list EngineRef)
    (requests : list RequestTuple) (default_timeout : Q) (self : Search) (e : Exn) :
  (_get_requests_loop env engineref_list requests default_timeout self).1 = Raises e →
  ∃ before engineref after,
    engineref_list = before ++ engineref :: after
    ∧ Forall (λ er, is_Some (PROCESSORS env !! er_name er)) before
    ∧ PROCESSORS env !! er_name engineref = None
    ∧ e = New KeyError_ (er_name engineref).
Proof.
  revert requests default_timeout self.
  induction engineref_list as [|engineref rest IH];
    intros requests default_timeout self; [done|].
  cbn [_get_requests_loop].
  destruct (PROCESSORS env !! er_name engineref) as [processor|] eqn:Hproc.
  - assert (∀ r d s0,
              (_get_requests_loop env rest r d s0).1 = Raises e →
              ∃ before engineref0 after,
                engineref :: rest = before ++ engineref0 :: after
                ∧ Forall (λ er, is_Some (PROCESSORS env !! er_name er)) before
                ∧ PROCESSORS env !! er_name engineref0 = None
                ∧ e = New KeyError_ (er_name engineref0)) as Hrest.
    { intros r d s0 (before & er0 & after & -> & Hbefore & Hnone & ->)%IH.
      exists (engineref :: before), er0, after.
      split; [done|]. split; [|done]. constructor; [by eexists | done]. }
    destruct (extend_container_if_suspended processor (result_container self))
      as [[|] rc]; [apply Hrest|].
    destruct (get_params processor _ _); apply Hrest.
  - cbn. intros [= <-]. exists [], engineref, rest. by repeat split.
Qed.

(** X13. [_get_requests] returns when every selected engine has a processor
    in PROCESSORS; when it raises, what it raises is the KeyError of the
    first selected engine that has none. *)
Theorem get_requests_unknown_engine (env : SearchEnv) (self : Search) :
  (Forall (λ er, is_Some (PROCESSORS env !! er_name er))
     (engineref_list (search_query self)) →
   returned (_get_requests env self).1 = true)
  ∧ (∀ e, (_get_requests env self).1 = Raises e →
       ∃ before engineref after,
         engineref_list (search_query self) = before ++ engineref :: after
         ∧ Forall (λ er, is_Some (PROCESSORS env !! er_name er)) before
         ∧ PROCESSORS env !! er_name engineref = None
         ∧ e = New KeyError_ (er_name engineref)).
Proof.
  unfold _get_requests. split.
  - intros Hknown.
    pose proof (_get_requests_loop_known env _ [] 0%Q self Hknown) as Hret.
    by destruct (_get_requests_loop _ _ _ _ _) as [[[requests d]|e] self1].
  - intros e.
    pose proof (_get_requests_loop_raises env (engineref_list (search_query self))
                  [] 0%Q self e) as Hraises.
    destruct (_get_requests_loop _ _ _ _ _) as [[[requests d]|e'] self1]; [done|].
    cbn. intros [= ->]. by apply Hraises.
Qed.

Lemma get_requests_unknown_engine_witness :
  (_get_requests env_plain search_unknown_engine).1 = Raises (New KeyError_ "nosuch")
  ∧ returned (_get_requests env_plain search_plain).1 = true.
Proof.
  split; [reflexivity|].
  apply (proj1 (get_requests_unknown_engine env_plain search_plain)).
  repeat constructor; by eexists.
Defined.

Lemma _get_requests_loop_requests (env : SearchEnv) (engineref_list : list EngineRef)
    (requests : list RequestTuple) (default_timeout : Q) (self : Search)
    (requests' : list RequestTuple) (default_timeout' : Q) (self' : Search) :
  _get_requests_loop env engineref_list requests default_timeout self
  = (Returns (requests', default_timeout'), self') →
  ∃ added,
    requests' = requests ++ added
    ∧ calls self' = calls self ++ map call_counter_inc (request_names added)
    ∧ request_names added `sublist_of` map er_name engineref_list
    ∧ Forall (λ r, r.1.2 = query (search_query self)) added.
Proof.
  revert requests default_timeout self.
  induction engineref_list as [|engineref rest IH];
    intros requests default_timeout self.
  { cbn. intros [= <- <- <-]. exists []. by rewrite !app_nil_r. }
  cbn [_get_requests_loop].
  destruct (PROCESSORS env !! er_name engineref) as [processor|]; [|done].
  destruct (extend_container_if_suspended processor (result_container self))
    as [[|] rc].
  - intros (added & -> & Hcalls & Hsub & Hquery)%IH. exists added.
    split; [done|]. split; [done|]. split; [|done]. cbn. by apply sublist_cons.
  - destruct (get_params processor _ _) as [request_params|].
    + intros (added & -> & Hcalls & Hsub & Hquery)%IH.
      exists ((er_name engineref, query (search_query self), request_params) :: added).
      rewrite <- app_assoc. split; [done|].
      cbn [with_call with_container calls search_query] in Hcalls, Hquery.
      rewrite Hcalls, <- app_assoc. split; [done|].
      split; [cbn; by apply sublist_skip|]. by constructor.
    + intros (added & -> & Hcalls & Hsub & Hquery)%IH. exists added.
      split; [done|]. split; [done|]. split; [|done]. cbn. by apply sublist_cons.
Qed.

(** The join loop adds one 'timeout' record per thread still alive after
    its join, in the order of the threads, and touches nothing else. *)
Lemma record_timeouts_unresponsive (t0 timeout : Q) (threads : list JoinedThread)
    (rc : ResultContainer) :
  unresponsive_engines (record_timeouts t0 timeout threads rc)
  = unresponsive_engines rc
    ++ map (λ th, (th_engine_name th, "timeout"))
         (List.filter (λ th, th_alive_after th
                               (py_max 0 (timeout - (th_clock th - t0)))) threads)
  ∧ redirect_url (record_timeouts t0 timeout threads rc) = redirect_url rc
  ∧ extended (record_timeouts t0 timeout threads rc) = extended rc.
Proof.
  unfold record_timeouts. revert rc.
  induction threads as [|th threads IH]; intros rc; cbn [fold_left List.filter].
  { cbn. by rewrite app_nil_r. }
  destruct (th_alive_after th _).
  - destruct (IH (add_unresponsive_engine (th_engine_name th) "timeout" rc))
      as (-> & -> & ->).
    cbn. by rewrite <- app_assoc.
  - apply IH.
Qed.

(** X14. When [_get_requests] returns, [search_standard] sets
    [actual_timeout] to the timeout computed, and the calls it has made are:
    one 'sent' counter increment per request, then one thread start per
    request, both in the order of the requests.  The requests name engines
    of the query, in the query's order, and carry the query text.  It
    returns True when there is no request, when no thread of the search is
    listed any more, or when [start_time] is set; with a request, a thread
    listed and [start_time] None it raises the TypeError of the subtraction.
    When it returns with requests made, the container is what the threads
    left, with one 'timeout' record for each listed thread still alive
    after it was joined for the time remaining of the timeout. *)
Theorem search_standard_one_thread_per_request (env : SearchEnv) (self self1 : Search)
    (requests : list RequestTuple) (timeout : Q) :
  _get_requests env (with_call call_search_standard self)
  = (Returns (requests, timeout), self1) →
  actual_timeout (search_standard env self).2 = Some timeout
  ∧ calls (search_standard env self).2
    = calls self ++ call_search_standard
        :: map call_counter_inc (request_names requests)
           ++ map call_thread_start (request_names requests)
  ∧ request_names requests
    `sublist_of` map er_name (engineref_list (search_query self))
  ∧ Forall (λ r, r.1.2 = query (search_query self)) requests
  ∧ (requests = [] ∨ joined env requests = [] ∨ is_Some (start_time self) →
     (search_standard env self).1 = Returns true)
  ∧ (requests ≠ [] → joined env requests ≠ [] → start_time self = None →
     (search_standard env self).1
     = Raises (New TypeError_
                 "unsupported operand type(s) for -: 'float' and 'NoneType'"))
  ∧ (requests = [] →
     result_container (search_standard env self).2 = result_container self1)
  ∧ (requests ≠ [] → joined env requests = [] →
     result_container (search_standard env self).2
     = workers env requests (start_time self) (Some timeout) (result_container self1))
  ∧ (∀ t0, requests ≠ [] → start_time self = Some t0 →
     result_container (search_standard env self).2
     = record_timeouts t0 timeout (joined env requests)
         (workers env requests (Some t0) (Some timeout) (result_container self1))).
Proof.
  intros Hget. unfold search_standard. rewrite Hget.
  unfold _get_requests in Hget.
  pose proof (_get_requests_loop_frame env
                (engineref_list (search_query (with_call call_search_standard self)))
                [] 0%Q (with_call call_search_standard self)) as (_ & Hstart & _).
  destruct (_get_requests_loop _ _ _ _ _) as [[[requests0 d]|e] self0] eqn:Hloop;
    [|done].
  injection Hget as <- _ <-. cbn [snd with_call start_time] in Hstart.
  destruct (_get_requests_loop_requests _ _ _ _ _ _ _ _ Hloop)
    as (added & Hadded & Hcalls & Hsub & Hquery).
  destruct (_get_requests_loop_default_timeout _ _ _ _ _ _ _ _ Hloop)
    as (added' & Hadded' & _ & Hknown & _).
  cbn [app] in Hadded, Hadded'. subst requests0. subst added'.
  cbn [with_call calls search_query] in Hcalls, Hsub, Hquery.
  destruct added as [|r added].
  { cbn. rewrite Hcalls, <- app_assoc, app_nil_r.
    repeat split; done. }
  assert (Forall (λ r0 : RequestTuple, is_Some (PROCESSORS env !! r0.1.1)) (r :: added))
    as Hsome.
  { eapply Forall_impl; [exact Hknown|]. intros r0 (processor & -> & _). by eexists. }
  unfold search_multiple_requests. rewrite (start_threads_known _ _ _ _ Hsome).
  cbn [with_container start_time actual_timeout result_container search_query calls app].
  rewrite Hstart, Hcalls, <- !app_assoc. unfold request_names.
  rewrite (map_map (λ r0 : RequestTuple, r0.1.1) call_thread_start).
  destruct (joined env (r :: added)) as [|th threads] eqn:Hjoined.
  { cbn. repeat split; try done. by intros t0 _ [= ->]. }
  destruct (start_time self) as [t0|] eqn:Ht0.
  - cbn. repeat split; try done. by intros t _ [= ->].
  - cbn. repeat split; try done.
    by intros [? | [? | [? ?] ] ].
Qed.

Lemma search_standard_one_thread_per_request_witness :
  (search_standard env_slow search_started).1 = Returns true
  ∧ actual_timeout (search_standard env_slow search_started).2 = Some 10%Q
  ∧ calls (search_standard env_slow search_started).2
    = [call_search_standard;
       call_counter_inc "duckduckgo"; call_counter_inc "wikipedia";
       call_thread_start "duckduckgo"; call_thread_start "wikipedia"]
  ∧ unresponsive_engines (result_container (search_standard env_slow search_started).2)
    = [("wikipedia", "timeout")].
Proof.
  destruct (search_standard_one_thread_per_request env_slow search_started
              {| search_query := query_of None PyNone;
                 result_container := ResultContainer_new;
                 start_time := Some 0%Q; actual_timeout := None;
                 calls := call_search_standard :: calls_both |}
              requests_both 10%Q eq_refl)
    as (Htimeout & Hcalls & _ & _ & Hret & _ & _ & _ & Hcontainer).
  split; [apply Hret; right; right; by eexists|].
  split; [exact Htimeout|]. split; [exact Hcalls|].
  rewrite (Hcontainer 0%Q); [reflexivity | discriminate | reflexivity].
Defined.

(** The same search on a search object whose [start_time] was never set:
    the threads are started, and the join loop raises. *)
Example search_standard_without_start_time :
  (search_standard env_slow search_plain).1
  = Raises (New TypeError_ "unsupported operand type(s) for -: 'float' and 'NoneType'")
  ∧ calls (search_standard env_slow search_plain).2
    = [call_search_standard;
       call_counter_inc "duckduckgo"; call_counter_inc "wikipedia";
       call_thread_start "duckduckgo"; call_thread_start "wikipedia"].
Proof. split; reflexivity. Qed.

Lemma py_min_le (a b : Q) : (py_min a b <= a)%Q ∧ (py_min a b <= b)%Q.
Proof. rewrite py_min_Qmin. split; [apply Q.le_min_l | apply Q.le_min_r]. Qed.

Lemma py_min_ge (a b c : Q) : (c <= a)%Q → (c <= b)%Q → (c <= py_min a b)%Q.
Proof. intros Ha Hb. unfold py_min. by destruct (py_lt b a). Qed.

(** X15. The timeout [_get_requests] returns never exceeds the ceiling
    max_request_timeout when one is configured, nor the query's
    timeout_limit when it has one; and it is not negative unless one of
    those two bounds is. *)
Theorem actual_timeout_within_bounds (env : SearchEnv) (self self' : Search)
    (requests : list RequestTuple) (timeout : Q) :
  _get_requests env self = (Returns (requests, timeout), self') →
  (∀ M, max_request_timeout env = Some M → (timeout <= M)%Q)
  ∧ (∀ L, timeout_limit (search_query self) = Some L → (timeout <= L)%Q)
  ∧ ((∀ M, max_request_timeout env = Some M → (0 <= M)%Q) →
     (∀ L, timeout_limit (search_query self) = Some L → (0 <= L)%Q) →
     (0 <= timeout)%Q).
Proof.
  unfold _get_requests.
  pose proof (_get_requests_loop_query env (engineref_list (search_query self))
                [] 0%Q self) as Hq.
  destruct (_get_requests_loop _ _ _ _ _) as [[[requests0 d]|e] self0] eqn:Hloop;
    [|done].
  cbn [snd] in Hq. rewrite Hq.
  apply _get_requests_loop_default_timeout in Hloop as (_ & _ & Hd & _).
  intros [= <- <- <-].
  destruct (max_request_timeout env) as [M|],
           (timeout_limit (search_query self)) as [L|];
    (split; [|split]);
    try (intros ? [= <-]); try done;
    try apply py_min_le; try (intros HM HL; apply py_min_ge); eauto.
Qed.

Lemma actual_timeout_within_bounds_witness :
  _get_requests env_ceiling search_limited
  = (Returns (requests_both, 3%Q), search_limited_after)
  ∧ (3 <= 3)%Q ∧ (3 <= 5)%Q.
Proof.
  assert (_get_requests env_ceiling search_limited
          = (Returns (requests_both, 3%Q), search_limited_after)) as Hget
    by reflexivity.
  split; [exact Hget|].
  destruct (actual_timeout_within_bounds _ _ _ _ _ Hget) as (HM & HL & _).
  split; [exact (HM 3%Q eq_refl) | exact (HL 5%Q eq_refl)].
Defined.



Lemma extend_all_answers (answers : list (list string)) (rc : ResultContainer) :
  let rc' := fold_left (λ rc results, extend "answer" results rc) answers rc in
  extended rc' = extended rc ++ map (λ results, ("answer", results)) answers
  ∧ redirect_url rc' = redirect_url rc
  ∧ unresponsive_engines rc' = unresponsive_engines rc.
Proof.
  revert rc. induction answers as [|results answers IH]; intros rc; cbn.
  - by rewrite app_nil_r.
  - destruct (IH (extend "answer" results rc)) as (-> & -> & ->).
    cbn. by rewrite <- app_assoc.
Qed.

(** X17. When the query has no external bang and the answerers give
    results, [search] returns the container with each result list added
    under 'answer', in order, and nothing else changed; the answerer check is
    the only call made: no standard search, no thread. *)
Theorem answerers_short_circuit (env : SearchEnv) (self : Search) :
  truthy (external_bang (search_query self)) = false →
  ask env (search_query self) ≠ [] →
  ∃ rc self',
    search env self = (Returns rc, self')
    ∧ result_container self' = rc
    ∧ extended rc
      = extended (result_container self)
        ++ map (λ results, ("answer", results)) (ask env (search_query self))
    ∧ redirect_url rc = redirect_url (result_container self)
    ∧ unresponsive_engines rc = unresponsive_engines (result_container self)
    ∧ calls self' = calls self ++ [call_search_answerers]
    ∧ actual_timeout self' = actual_timeout self.
Proof.
  intros Hbang Hans. unfold search, search_external_bang.
  cbn [search_query]. rewrite Hbang. cbn [negb]. unfold search_answerers.
  cbn [with_call search_query result_container].
  destruct (ask env (search_query self)) as [|results answers] eqn:Hask; [done|].
  cbn [negb]. eexists _, _. split; [reflexivity|].
  cbn [with_container result_container calls actual_timeout].
  pose proof (extend_all_answers (results :: answers) (result_container self))
    as (Hext & Hurl & Hun).
  by repeat split.
Qed.

Lemma answerers_short_circuit_witness :
  truthy (external_bang (search_query search_plain)) = false
  ∧ ask env_answer (search_query search_plain) ≠ []
  ∧ ∃ rc self',
      search env_answer search_plain = (Returns rc, self')
      ∧ extended rc = [("answer", ["4"])]
      ∧ calls self' = [call_search_answerers].
Proof.
  assert (ask env_answer (search_query search_plain) ≠ []) as Hans by discriminate.
  split; [reflexivity|]. split; [exact Hans|].
  destruct (answerers_short_circuit env_answer search_plain eq_refl Hans)
    as (rc & self' & Hrun & _ & Hext & _ & _ & Hcalls & _).
  exists rc, self'. split; [exact Hrun|]. split; [exact Hext | exact Hcalls].
Defined.

Lemma _get_requests_loop_aside (env : SearchEnv) (engineref_list : list EngineRef)
    (requests : list RequestTuple) (default_timeout : Q) (self : Search) :
  Forall (λ er, ∃ processor, PROCESSORS env !! er_name er = Some processor
                  ∧ stands_aside processor) engineref_list →
  ∃ self', _get_requests_loop env engineref_list requests default_timeout self
           = (Returns (requests, default_timeout), self')
           ∧ calls self' = calls self
           ∧ search_query self' = search_query self
           ∧ start_time self' = start_time self.
Proof.
  intros Haside. revert self.
  induction Haside as [|engineref rest (processor & Hproc & Haside) _ IH];
    intros self; [by eexists|].
  cbn [_get_requests_loop]. rewrite Hproc.
  destruct (extend_container_if_suspended processor (result_container self))
    as [suspended rc] eqn:Hsusp.
  destruct suspended.
  - destruct (IH (with_container rc self)) as (self' & -> & ? & ? & ?). by eexists.
  - destruct Haside as [Hsuspended | Hdeclines].
    + specialize (Hsuspended (result_container self)). rewrite Hsusp in Hsuspended.
      done.
    + rewrite Hdeclines.
      destruct (IH (with_container rc self)) as (self' & -> & ? & ? & ?). by eexists.
Qed.

(** X18. When every selected engine is suspended or gives no parameters (and
    so too when no engine is selected), [search_standard] makes no request:
    it increments no counter, starts no thread, and returns True. *)
Theorem search_standard_no_request (env : SearchEnv) (self : Search) :
  Forall (λ er, ∃ processor, PROCESSORS env !! er_name er = Some processor
                  ∧ stands_aside processor)
    (engineref_list (search_query self)) →
  (search_standard env self).1 = Returns true
  ∧ calls (search_standard env self).2 = calls self ++ [call_search_standard]
  ∧ is_Some (actual_timeout (search_standard env self).2).
Proof.
  intros Haside. unfold search_standard, _get_requests.
  destruct (_get_requests_loop_aside env
              (engineref_list (search_query (with_call call_search_standard self)))
              [] 0%Q (with_call call_search_standard self) Haside)
    as (self' & -> & Hcalls & _).
  cbn. rewrite Hcalls. split; [done|]. split; [done | by eexists].
Qed.

Lemma search_standard_no_request_witness :
  Forall (λ er, ∃ processor, PROCESSORS env_suspended !! er_name er = Some processor
                  ∧ stands_aside processor)
    (engineref_list (search_query search_plain))
  ∧ calls (search_standard env_suspended search_plain).2 = [call_search_standard].
Proof.
  assert (Forall (λ er, ∃ processor,
                    PROCESSORS env_suspended !! er_name er = Some processor
                    ∧ stands_aside processor)
            (engineref_list (search_query search_plain))) as Haside.
  { repeat constructor; exists processor_suspended;
      (split; [reflexivity | left; intros rc; reflexivity]). }
  split; [exact Haside|].
  exact (proj1 (proj2 (search_standard_no_request env_suspended search_plain Haside))).
Defined.

(** ** Search with plugins *)

Lemma call_hook_after (penv : PluginEnv) (hook : Hook) (self : Search)
    (hooks : list Hook) :
  call_hook penv hook self hooks
  = ((plugins_call penv hook self).1, after_hook penv hook self, hooks ++ [hook]).
Proof.
  unfold after_hook, call_hook. by destruct (plugins_call penv hook self).
Qed.

Lemma after_hook_calls (penv : PluginEnv) (hook : Hook) (self : Search) :
  calls (after_hook penv hook self) = calls self.
Proof.
  unfold after_hook, call_hook. by destruct (plugins_call penv hook self).
Qed.

(** The hooks called so far have no part in what the loop does. *)
Lemma call_on_result_hooks (penv : PluginEnv) (results : list string)
    (self : Search) (hooks : list Hook) :
  call_on_result penv results self hooks
  = ((call_on_result penv results self []).1,
     hooks ++ (call_on_result penv results self []).2).
Proof.
  revert self hooks. induction results as [|result rest IH]; intros self hooks.
  { cbn. by rewrite app_nil_r. }
  cbn [call_on_result]. rewrite !call_hook_after.
  destruct (plugins_call penv (on_result result) self).1 as [answer|e]; [|done].
  rewrite (IH _ (hooks ++ [on_result result])), (IH _ ([] ++ [on_result result])).
  cbn [fst snd]. by rewrite <- app_assoc.
Qed.

Lemma call_on_result_calls (penv : PluginEnv) (results : list string)
    (self : Search) (hooks : list Hook) :
  calls (call_on_result penv results self hooks).1.2 = calls self.
Proof.
  revert self hooks. induction results as [|result rest IH]; intros self hooks; [done|].
  cbn [call_on_result]. rewrite call_hook_after.
  destruct (plugins_call penv (on_result result) self).1 as [answer|e].
  - by rewrite IH, after_hook_calls.
  - cbn. apply after_hook_calls.
Qed.

Lemma call_on_result_cons (penv : PluginEnv) (result : string) (rest : list string)
    (self : Search) (answer : bool) :
  (plugins_call penv (on_result result) self).1 = Returns answer →
  (call_on_result penv (result :: rest) self []).1
  = (call_on_result penv rest (after_hook penv (on_result result) self) []).1.
Proof.
  intros Hhook. cbn [call_on_result]. rewrite call_hook_after, Hhook.
  by rewrite call_on_result_hooks.
Qed.

(** The loop calls on_result for the results in order and stops at the
    first hook that raises. *)
Lemma call_on_result_run (penv : PluginEnv) (results : list string)
    (self : Search) (hooks : list Hook) :
  match call_on_result penv results self hooks with
  | (Returns _, self', hooks') =>
      self' = after_results penv results self
      ∧ hooks' = hooks ++ map on_result results
  | (Raises e, self', hooks') =>
      ∃ before result rest,
        results = before ++ result :: rest
        ∧ returned (call_on_result penv before self []).1.1 = true
        ∧ (plugins_call penv (on_result result) (after_results penv before self)).1
          = Raises e
        ∧ hooks' = hooks ++ map on_result (before ++ [result])
  end.
Proof.
  revert self hooks. induction results as [|result rest IH]; intros self hooks.
  { cbn. by rewrite app_nil_r. }
  cbn [call_on_result]. rewrite call_hook_after.
  destruct (plugins_call penv (on_result result) self).1 as [answer|e] eqn:Hhook.
  - specialize (IH (after_hook penv (on_result result) self)
                  (hooks ++ [on_result result])).
    destruct (call_on_result penv rest _ (hooks ++ [on_result result]))
      as [[[[]|e] self'] hooks'].
    + destruct IH as [-> ->]. split.
      * unfold after_results. by rewrite (call_on_result_cons _ _ _ _ _ Hhook).
      * cbn [map]. by rewrite <- app_assoc.
    + destruct IH as (before & result' & rest' & -> & Hbefore & Hraises & ->).
      exists (result :: before), result', rest'.
      unfold after_results in *.
      rewrite (call_on_result_cons _ _ _ _ _ Hhook).
      split; [done|]. split; [done|]. split; [done|].
      cbn [map app]. by rewrite <- app_assoc.
  - exists [], result, rest. by cbn.
Qed.

(** X19. When the pre_search hook answers False, [SearchWithPlugins.search]
    runs no search: post_search is the next thing called, on the search
    object as pre_search left it, and no bang or answerer check, engine
    request or thread start is ever made.  When post_search raises, its
    error is raised.  When it returns, [get_ordered_results] gives the
    results of the container as post_search left it, and the on_result
    hooks return, on_result was called once for each of these results, in
    order, and the container of the search object as the last hook left it
    is returned. *)
Theorem pre_search_veto (env : SearchEnv) (penv : PluginEnv) (self : Search)
    (hooks : list Hook) :
  (plugins_call penv pre_search self).1 = Returns false →
  let self1 := after_hook penv pre_search self in
  let self2 := after_hook penv post_search self1 in
  (∃ more, (SearchWithPlugins_search env penv self hooks).2
           = hooks ++ pre_search :: post_search :: more)
  ∧ calls (SearchWithPlugins_search env penv self hooks).1.2 = calls self
  ∧ (∀ e, (plugins_call penv post_search self1).1 = Raises e →
       SearchWithPlugins_search env penv self hooks
       = (Raises e, self2, hooks ++ [pre_search; post_search]))
  ∧ (∀ results,
       returned (plugins_call penv post_search self1).1 = true →
       get_ordered_results penv (result_container self2) = Returns results →
       returned (call_on_result penv results self2 []).1.1 = true →
       SearchWithPlugins_search env penv self hooks
       = (Returns (result_container (after_results penv results self2)),
          after_results penv results self2,
          hooks ++ pre_search :: post_search :: map on_result results)).
Proof.
  intros Hveto self1 self2. unfold SearchWithPlugins_search.
  rewrite call_hook_after, Hveto. fold self1. unfold call_post_hooks.
  rewrite call_hook_after. fold self2.
  split; [|split; [|split]].
  - destruct (plugins_call penv post_search self1).1 as [answer|e].
    2:{ exists []. cbn. by rewrite <- app_assoc. }
    destruct (get_ordered_results penv (result_container self2)) as [results|e].
    2:{ exists []. cbn. by rewrite <- app_assoc. }
    rewrite call_on_result_hooks.
    destruct (call_on_result penv results self2 []) as [[[[]|e] self3] more];
      exists more; cbn; by rewrite <- !app_assoc.
  - destruct (plugins_call penv post_search self1).1 as [answer|e].
    2:{ cbn. unfold self2, self1. by rewrite !after_hook_calls. }
    destruct (get_ordered_results penv (result_container self2)) as [results|e].
    2:{ cbn. unfold self2, self1. by rewrite !after_hook_calls. }
    pose proof (call_on_result_calls penv results self2
                  ((hooks ++ [pre_search]) ++ [post_search])) as Hcalls.
    destruct (call_on_result penv results self2 _) as [[[[]|e] self3] more];
      cbn in Hcalls |- *; rewrite Hcalls; unfold self2, self1;
      by rewrite !after_hook_calls.
  - intros e ->. by rewrite <- app_assoc.
  - intros results Hpost -> Hresults.
    destruct (plugins_call penv post_search self1).1 as [answer|e]; [|done].
    pose proof (call_on_result_run penv results self2
                  ((hooks ++ [pre_search]) ++ [post_search])) as Hrun.
    rewrite call_on_result_hooks in Hrun |- *.
    destruct (call_on_result penv results self2 []) as [[[[]|e] self3] more];
      [|done].
    destruct Hrun as [-> ->]. by rewrite <- !app_assoc.
Qed.

Lemma pre_search_veto_witness :
  (plugins_call plugins_veto pre_search search_plain).1 = Returns false
  ∧ SearchWithPlugins_search env_plain plugins_veto search_plain []
    = (Returns ResultContainer_new, search_plain,
       [pre_search; post_search; on_result "r1"; on_result "r2"]).
Proof.
  split; [reflexivity|].
  destruct (pre_search_veto env_plain plugins_veto search_plain [] eq_refl)
    as (_ & _ & _ & Hreturns).
  by rewrite (Hreturns ["r1"; "r2"] eq_refl eq_refl eq_refl).
Defined.

(** What follows the search, from the search object [self] it left. *)
Lemma call_post_hooks_run (penv : PluginEnv) (self : Search) (hooks : list Hook) :
  match call_post_hooks penv self hooks with
  | (Returns rc, self', hooks') =>
      returned (plugins_call penv post_search self).1 = true
      ∧ ∃ results,
          get_ordered_results penv (result_container (after_hook penv post_search self))
          = Returns results
          ∧ self' = after_results penv results (after_hook penv post_search self)
          ∧ rc = result_container self'
          ∧ hooks' = hooks ++ post_search :: map on_result results
  | (Raises e, self', hooks') =>
      ((plugins_call penv post_search self).1 = Raises e
       ∧ self' = after_hook penv post_search self
       ∧ hooks' = hooks ++ [post_search])
      ∨ (get_ordered_results penv (result_container (after_hook penv post_search self))
         = Raises e
         ∧ self' = after_hook penv post_search self
         ∧ hooks' = hooks ++ [post_search])
      ∨ (∃ results before result rest,
           get_ordered_results penv
             (result_container (after_hook penv post_search self)) = Returns results
           ∧ results = before ++ result :: rest
           ∧ (plugins_call penv (on_result result)
                (after_results penv before (after_hook penv post_search self))).1
             = Raises e
           ∧ hooks' = hooks ++ post_search :: map on_result (before ++ [result]))
  end.
Proof.
  unfold call_post_hooks. rewrite call_hook_after.
  destruct (plugins_call penv post_search self).1 as [answer|e]; [|by left].
  destruct (get_ordered_results penv (result_container (after_hook penv post_search self)))
    as [results|e] eqn:Hresults; [|right; by left].
  pose proof (call_on_result_run penv results (after_hook penv post_search self)
                (hooks ++ [post_search])) as Hrun.
  destruct (call_on_result penv results _ (hooks ++ [post_search]))
    as [[[[]|e] self'] hooks'].
  - destruct Hrun as [-> ->]. split; [done|]. exists results.
    by rewrite <- app_assoc.
  - destruct Hrun as (before & result & rest & -> & _ & Hraises & ->).
    right; right. exists (before ++ result :: rest), before, result, rest.
    by rewrite <- app_assoc.
Qed.

(** X20. [SearchWithPlugins.search] calls pre_search first, and runs the
    search, on the search object as that hook left it, when the hook
    answers True.  When it returns: the search, if it ran, returned;
    post_search was called next, on the search object as the search left it
    (as pre_search left it, had it answered False); on_result was then
    called once for each result of [get_ordered_results], taken from the
    container as post_search left it, in order; and the value returned is
    the container of the search object as the last hook left it.  When it
    raises, the error is that of pre_search, of the search that pre_search
    let run, of post_search, of [get_ordered_results], or of the first
    on_result hook that raised, and no hook was called after the error. *)
Theorem search_with_plugins_hooks (env : SearchEnv) (penv : PluginEnv)
    (self : Search) (hooks : list Hook) :
  let self1 := after_hook penv pre_search self in
  let self2 := before_post_search env penv self in
  let self3 := after_hook penv post_search self2 in
  match SearchWithPlugins_search env penv self hooks with
  | (Returns rc, self', hooks') =>
      ((plugins_call penv pre_search self).1 = Returns false
       ∨ (plugins_call penv pre_search self).1 = Returns true
         ∧ returned (search env self1).1 = true)
      ∧ returned (plugins_call penv post_search self2).1 = true
      ∧ ∃ results,
          get_ordered_results penv (result_container self3) = Returns results
          ∧ self' = after_results penv results self3
          ∧ rc = result_container self'
          ∧ hooks' = hooks ++ pre_search :: post_search :: map on_result results
  | (Raises e, self', hooks') =>
      ((plugins_call penv pre_search self).1 = Raises e
       ∧ self' = self1 ∧ hooks' = hooks ++ [pre_search])
      ∨ ((plugins_call penv pre_search self).1 = Returns true
         ∧ search env self1 = (Raises e, self') ∧ hooks' = hooks ++ [pre_search])
      ∨ ((plugins_call penv post_search self2).1 = Raises e
         ∧ self' = self3 ∧ hooks' = hooks ++ [pre_search; post_search])
      ∨ (get_ordered_results penv (result_container self3) = Raises e
         ∧ self' = self3 ∧ hooks' = hooks ++ [pre_search; post_search])
      ∨ (∃ results before result rest,
           get_ordered_results penv (result_container self3) = Returns results
           ∧ results = before ++ result :: rest
           ∧ (plugins_call penv (on_result result)
                (after_results penv before self3)).1 = Raises e
           ∧ hooks' = hooks ++ pre_search :: post_search
                        :: map on_result (before ++ [result]))
  end.
Proof.
  intros self1 self2 self3.
  assert (∀ s : Search,
            s = self2 →
            ((plugins_call penv pre_search self).1 = Returns false
             ∨ (plugins_call penv pre_search self).1 = Returns true
               ∧ returned (search env self1).1 = true) →
            match call_post_hooks penv s (hooks ++ [pre_search]) with
            | (Returns rc, self', hooks') =>
                ((plugins_call penv pre_search self).1 = Returns false
                 ∨ (plugins_call penv pre_search self).1 = Returns true
                   ∧ returned (search env self1).1 = true)
                ∧ returned (plugins_call penv post_search self2).1 = true
                ∧ ∃ results,
                    get_ordered_results penv (result_container self3) = Returns results
                    ∧ self' = after_results penv results self3
                    ∧ rc = result_container self'
                    ∧ hooks' = hooks ++ pre_search :: post_search
                                 :: map on_result results
            | (Raises e, self', hooks') =>
                ((plugins_call penv pre_search self).1 = Raises e
                 ∧ self' = self1 ∧ hooks' = hooks ++ [pre_search])
                ∨ ((plugins_call penv pre_search self).1 = Returns true
                   ∧ search env self1 = (Raises e, self')
                   ∧ hooks' = hooks ++ [pre_search])
                ∨ ((plugins_call penv post_search self2).1 = Raises e
                   ∧ self' = self3 ∧ hooks' = hooks ++ [pre_search; post_search])
                ∨ (get_ordered_results penv (result_container self3) = Raises e
                   ∧ self' = self3 ∧ hooks' = hooks ++ [pre_search; post_search])
                ∨ (∃ results before result rest,
                     get_ordered_results penv (result_container self3) = Returns results
                     ∧ results = before ++ result :: rest
                     ∧ (plugins_call penv (on_result result)
                          (after_results penv before self3)).1 = Raises e
                     ∧ hooks' = hooks ++ pre_search :: post_search
                                  :: map on_result (before ++ [result]))
            end) as Hafter.
  { intros s -> Hsearched.
    pose proof (call_post_hooks_run penv self2 (hooks ++ [pre_search])) as Hrun.
    fold self3 in Hrun.
    destruct (call_post_hooks penv self2 (hooks ++ [pre_search]))
      as [[[rc|e] self'] hooks'].
    - destruct Hrun as (Hpost & results & Hresults & -> & -> & ->).
      split; [done|]. split; [done|]. exists results. by rewrite <- app_assoc.
    - destruct Hrun as [(Hpost & -> & ->)
                       | [(Hresults & -> & ->)
                         | (results & before & result & rest
                            & Hresults & -> & Hraises & ->)]].
      + right; right; left. by rewrite <- app_assoc.
      + right; right; right; left. by rewrite <- app_assoc.
      + right; right; right; right.
        exists (before ++ result :: rest), before, result, rest.
        by rewrite <- app_assoc. }
  unfold SearchWithPlugins_search. rewrite call_hook_after. fold self1.
  unfold self2, before_post_search in Hafter |- *. fold self1 in Hafter |- *.
  destruct (plugins_call penv pre_search self).1 as [[|]|e] eqn:Hpre.
  - destruct (search env self1) as [[rc|e] s2] eqn:Hsearch.
    + apply Hafter; [done|]. right. by split.
    + right; left. by repeat split.
  - apply Hafter; [done|]. by left.
  - left. by repeat split.
Qed.

Lemma search_with_plugins_hooks_witness :
  SearchWithPlugins_search env_slow plugins_pass search_plain []
  = (Returns (result_container (search env_slow search_plain).2),
     (search env_slow search_plain).2, [pre_search; post_search; on_result "r1"])
  ∧ SearchWithPlugins_search env_plain plugins_pass search_unknown_engine []
    = (Raises (New KeyError_ "nosuch"), (search env_plain search_unknown_engine).2,
       [pre_search])
  ∧ SearchWithPlugins_search env_plain plugins_failing search_plain []
    = (Raises (Exc RuntimeError_ 7), (search env_plain search_plain).2,
       [pre_search; post_search; on_result "r1"; on_result "r2"]).
Proof.
  pose proof (search_with_plugins_hooks env_slow plugins_pass search_plain [])
    as Hreturns.
  cbv zeta in Hreturns.
  destruct (SearchWithPlugins_search env_slow plugins_pass search_plain [])
    as [[[rc|e] self'] hooks'] eqn:Hrun.
  - destruct Hreturns as (_ & _ & results & [= <-] & -> & -> & ->).
    split; [reflexivity|]. split; reflexivity.
  - assert (returned (SearchWithPlugins_search env_slow plugins_pass search_plain []).1.1
            = true) as Hret by reflexivity.
    rewrite Hrun in Hret. discriminate Hret.
Defined.
